(** * logwrapper: [android_fork_execvp] and its output pump

    A shallow embedding of [logwrapper/logwrap.c].  The operating system is
    an explicit environment: the results of the set-up calls are fields of a
    record, the bytes the child writes to its terminal are a list, and the
    successive answers of [poll], [read] and [waitpid] are a script.  What the
    program does to the lock, to descriptors, to signals and to the log sink
    is recorded as a trace, in program order. *)

From Stdlib Require Import ZArith String Bool.
From Stdlib.Strings Require Import Byte.
From stdpp Require Import base tactics list.

Local Open Scope Z_scope.

(** ** Bytes and the line buffer *)

#[global] Instance byte_eq_dec : EqDecision byte := Byte.byte_eq_dec.

Definition NUL : byte := x00.
Definition CR : byte := x0d.
Definition LF : byte := x0a.

(** [sizeof(buffer)] for [char buffer[4096]] *)
Definition BUFSZ : Z := 4096.

(** [buffer[i]] and [buffer[i] = c]; the indices are C [int]s, all of
    them stay within [0 .. 4095], far from any wrap-around. *)
Definition buf_get (buf : list byte) (i : Z) : byte :=
  nth (Z.to_nat i) buf NUL.

Definition buf_set (buf : list byte) (i : Z) (c : byte) : list byte :=
  <[Z.to_nat i := c]> buf.

(** The bytes [read] stores at [&buffer[b]]. *)
Definition buf_write (buf : list byte) (b : Z) (data : list byte) : list byte :=
  take (Z.to_nat b) buf ++ data ++ drop (Z.to_nat b + length data) buf.

(** [memmove(buffer, &buffer[a], n)] *)
Definition buf_memmove (buf : list byte) (a n : Z) : list byte :=
  take (Z.to_nat n) (drop (Z.to_nat a) buf) ++ drop (Z.to_nat n) buf.

(** What the format [%s] prints for a [char *]: the bytes up to the first NUL. *)
Fixpoint c_str (l : list byte) : list byte :=
  match l with
  | [] => []
  | c :: l' => if decide (c = NUL) then [] else c :: c_str l'
  end.

Definition str_at (buf : list byte) (a : Z) : list byte :=
  c_str (drop (Z.to_nat a) buf).

(** ** The log sink *)

(** The three places of [parent] that log a piece of the child's output. *)
Inductive emit_site :=
| PerLine      (* on a newline, in the scan loop *)
| ForcedFlush  (* "buffer is full, flush" *)
| FinalFlush.  (* "Flush remaining data" *)

Inductive log_record :=
| ChildLine (site : emit_site) (text : list byte)
    (* ALOG(LOG_INFO, btag, "%s", &buffer[a]) *)
| ExitSummary (code : Z)      (* "%s terminated by exit(%d)" *)
| SignalSummary (sig : Z)     (* "%s terminated by signal %d" *)
| StopSummary (sig : Z)       (* "%s stopped by signal %d" *)
| ErrorRecord (tag msg : string).
    (* ALOG(LOG_ERROR, tag, msg); the macro ERROR uses the tag "logwrapper"
       and prints the same text on stderr *)

Definition ERROR (msg : string) : log_record := ErrorRecord "logwrapper" msg.

Definition child_line (r : log_record) : option (emit_site * list byte) :=
  match r with
  | ChildLine site text => Some (site, text)
  | _ => None
  end.

(** The records logged on the child's behalf, in order. *)
Definition child_lines (log : list log_record) : list (emit_site * list byte) :=
  omap child_line log.

(** ** Wait statuses, as <sys/wait.h> of Linux decodes them *)

Definition WEXITSTATUS (s : Z) : Z := Z.shiftr (Z.land s 65280) 8.
Definition WTERMSIG (s : Z) : Z := Z.land s 127.
Definition WSTOPSIG (s : Z) : Z := WEXITSTATUS s.
Definition WIFEXITED (s : Z) : bool := WTERMSIG s =? 0.
Definition WIFSTOPPED (s : Z) : bool := Z.land s 255 =? 127.
Definition WIFSIGNALED (s : Z) : bool := 2 <=? WTERMSIG (s + 1).

(** The status the kernel reports for [exit(ret)] and for death by [sig]
    (with or without a core dump). *)
Definition W_EXITCODE (ret sig : Z) : Z := Z.lor (Z.shiftl ret 8) sig.
Definition W_SIGNALED (sig : Z) (core : bool) : Z :=
  Z.lor sig (if core then 128 else 0).

(** <errno.h> of Linux *)
Definition ECHILD : Z := 10.

(** ** The pump: [parent] *)

Record pump := Pump { buffer : list byte; a : Z; b : Z }.

(** The answers of the operating system in one turn of the loop. *)
Inductive read_res :=
| RdAvail (k : nat)   (* [k] bytes of the child's output are pending *)
| RdErr.              (* [read] returns -1 *)

Inductive wait_res :=
| WaitErr (errno : Z)   (* [waitpid] returns -1 *)
| WaitNone              (* returns 0: the child has not exited yet *)
| WaitGot (status : Z). (* returns the pid and stores [status] *)

Inductive poll_res :=
| PollErr   (* [poll] fails, with an error other than EINTR *)
| PollOk (pollin : option read_res) (pollhup : option wait_res).
    (* [revents]: [Some] when the bit is set, with what the call made
       under that bit will answer *)

(** The scan loop [for (b = 0; b < sz; b++)], [n] turns left, at index [i]. *)
Fixpoint scan (logwrap : bool) (n : nat) (i : Z) (buf : list byte) (a : Z)
    (out : list log_record) : list byte * Z * list log_record :=
  match n with
  | O => (buf, a, out)
  | S n' =>
      if decide (buf_get buf i = CR) then
        scan logwrap n' (i + 1) (buf_set buf i NUL) a out
      else if decide (buf_get buf i = LF) then
        let buf' := buf_set buf i NUL in
        let out' :=
          if logwrap then out ++ [ChildLine PerLine (str_at buf' a)] else out in
        scan logwrap n' (i + 1) buf' (i + 1) out'
      else scan logwrap n' (i + 1) buf a out
  end.

(** [read(parent_read, &buffer[b], sizeof(buffer) - 1 - b)]: the terminal
    hands over as much of the pending output as the count allows.  The
    result is the value of [sz], the buffer and the output still unread. *)
Definition do_read (r : read_res) (stream : list byte) (st : pump)
    : Z * list byte * list byte :=
  match r with
  | RdErr => (-1, buffer st, stream)
  | RdAvail k =>
      let count := Z.to_nat (BUFSZ - 1 - b st) in
      let data := take (Nat.min k count) stream in
      (Z.of_nat (length data), buf_write (buffer st) (b st) data,
       drop (length data) stream)
  end.

(** The body of [if (poll_fds[0].revents & POLLIN)]. *)
Definition on_pollin (logwrap : bool) (r : read_res) (stream : list byte)
    (st : pump) : pump * list log_record * list byte :=
  let '(sz, buf1, stream') := do_read r stream st in
  let sz := sz + b st in
  let '(buf2, a2, out) := scan logwrap (Z.to_nat sz) 0 buf1 (a st) [] in
  let b2 := Z.max 0 sz in
  if (a2 =? 0) && (b2 =? BUFSZ - 1) then
    let buf3 := buf_set buf2 b2 NUL in
    let out' :=
      if logwrap then out ++ [ChildLine ForcedFlush (str_at buf3 a2)] else out in
    (Pump buf3 a2 0, out', stream')
  else if negb (a2 =? b2) then
    let b3 := b2 - a2 in
    (Pump (buf_memmove buf2 a2 b3) 0 b3, out, stream')
  else (Pump buf2 0 0, out, stream').

(** How the [while (!found_child)] loop ends. *)
Inductive loop_end :=
| LoopBlocked   (* the script is over: [poll] never returns again *)
| LoopAbort (rc : Z)          (* [goto err_poll], [goto err_waitpid] *)
| LoopFound (status : Z).     (* [found_child = true] *)

Fixpoint pump_loop (logwrap : bool) (script : list poll_res)
    (stream : list byte) (st : pump) (log : list log_record)
    : loop_end * pump * list log_record * list byte :=
  match script with
  | [] => (LoopBlocked, st, log, stream)
  | PollErr :: _ => (LoopAbort (-1), st, log ++ [ERROR "poll failed"], stream)
  | PollOk pollin pollhup :: script' =>
      let '(st1, log1, stream1) :=
        match pollin with
        | Some r =>
            let '(st', out, stream') := on_pollin logwrap r stream st in
            (st', log ++ out, stream')
        | None => (st, log, stream)
        end in
      match pollhup with
      | Some (WaitErr errno) =>
          (LoopAbort errno, st1,
           log1 ++ [ErrorRecord "logwrap" "waitpid failed"], stream1)
      | Some (WaitGot status) => (LoopFound status, st1, log1, stream1)
      | Some WaitNone | None => pump_loop logwrap script' stream1 st1 log1
      end
  end.

(** What [parent] leaves behind when it returns. *)
Record parent_result := ParentResult {
  p_rc : Z;              (* the value returned *)
  p_slot : option Z;     (* what was stored through [chld_sts], if anything *)
  p_log : list log_record;
  p_rest : list byte     (* output of the child never read *)
}.

Inductive parent_outcome :=
| ParentBlocked (log : list log_record)
| ParentReturns (r : parent_result).

(** The summary record after the final flush. *)
Definition summary (status : Z) : list log_record :=
  if WIFEXITED status then
    if WEXITSTATUS status =? 0 then [] else [ExitSummary (WEXITSTATUS status)]
  else if WIFSIGNALED status then [SignalSummary (WTERMSIG status)]
  else if WIFSTOPPED status then [StopSummary (WSTOPSIG status)]
  else [].

(** [parent(tag, parent_read, pid, chld_sts, logwrap)]; [has_slot] says
    whether [chld_sts != NULL], [buf0] is the content the buffer happens to
    have on entry. *)
Definition parent (logwrap has_slot : bool) (script : list poll_res)
    (stream : list byte) (buf0 : list byte) : parent_outcome :=
  match pump_loop logwrap script stream (Pump buf0 0 0) [] with
  | (LoopBlocked, _, log, _) => ParentBlocked log
  | (LoopAbort rc, _, log, rest) => ParentReturns (ParentResult rc None log rest)
  | (LoopFound status, st, log, rest) =>
      let rc :=
        if has_slot then 0
        else if WIFEXITED status then WEXITSTATUS status else - ECHILD in
      let slot := if has_slot then Some status else None in
      let log' :=
        if logwrap then
          let flush :=
            if negb (a st =? b st) then
              [ChildLine FinalFlush (str_at (buf_set (buffer st) (b st) NUL) (a st))]
            else [] in
          log ++ flush ++ summary status
        else log in
      ParentReturns (ParentResult rc slot log' rest)
  end.

(** ** The launcher: [android_fork_execvp] *)

(** What the operating system answers to one launch. *)
Record launch_env := LaunchEnv {
  lock_rc : Z;            (* pthread_mutex_lock(&fd_mutex) *)
  ptmx_fd : Z;            (* open("/dev/ptmx", O_RDWR) *)
  grantpt_rc : Z;
  unlockpt_rc : Z;
  ptsname_ok : bool;      (* ptsname(parent_ptty) != 0 *)
  child_fd : Z;           (* open(child_devname, O_RDWR) *)
  fork_pid : Z;           (* fork(): < 0 failure, 0 in the child, > 0 in the parent *)
  exec_ok : bool;         (* in the child: execvp replaces the image *)
  pump_script : list poll_res;
  child_output : list byte;
  stack_buffer : list byte  (* the content of [buffer] on entry to [parent] *)
}.

(** The steps of one launch, in program order. *)
Inductive event :=
| EvLock | EvUnlock
| EvOpen (fd : Z) | EvClose (fd : Z) | EvDup2 (fd newfd : Z)
| EvSigBlock       (* pthread_sigmask(SIG_BLOCK, &blockset, &oldset) *)
| EvSigSetmask     (* pthread_sigmask(SIG_SETMASK, &oldset, NULL) *)
| EvSigIgnore      (* SIGINT and SIGQUIT set to SIG_IGN *)
| EvSigRestore     (* their saved dispositions put back *)
| EvFork
| EvError (msg : string)       (* ERROR(msg) *)
| EvParent (o : parent_outcome)  (* the call of [parent], with all it did *)
| EvExec.                      (* execvp in the child *)

Inductive launch_outcome :=
| Returns (rc : Z) (slot : option Z)   (* back in the caller *)
| Blocks                               (* [parent] never returns *)
| ChildReplaced                        (* the child runs the program *)
| ChildExits (code : Z).               (* FATAL_CHILD: _exit(-1) *)

Definition when (c : bool) (evs : list event) : list event :=
  if c then evs else [].

(** [child(argc, argv, logwrap)]: [execvp] on the copied argument vector,
    and FATAL_CHILD if it comes back. *)
Definition child (env : launch_env) : list event * launch_outcome :=
  if exec_ok env then ([EvExec], ChildReplaced)
  else ([EvExec; EvError "executing failed"], ChildExits (-1)).

(** [android_fork_execvp(argc, argv, status, ignore_int_quit, logwrap)];
    [has_slot] says whether [status != NULL].  The labels of the C function
    are the nested tails of the trace. *)
Definition android_fork_execvp (env : launch_env)
    (has_slot ignore_int_quit logwrap : bool)
    : list event * launch_outcome :=
  let err_open := [EvUnlock] in
  let err_ptty := EvClose (ptmx_fd env) :: err_open in
  let err_fork := EvSigSetmask :: err_ptty in
  if negb (lock_rc env =? 0) then
    ([EvError "failed to lock signal_fd mutex"], Returns (lock_rc env) None)
  else if ptmx_fd env <? 0 then
    ([EvLock; EvError "Cannot create parent ptty"] ++ err_open, Returns (-1) None)
  else if negb (grantpt_rc env =? 0) || negb (unlockpt_rc env =? 0)
          || negb (ptsname_ok env) then
    ([EvLock; EvOpen (ptmx_fd env); EvError "Problem with /dev/ptmx"] ++ err_ptty,
     Returns (-1) None)
  else if child_fd env <? 0 then
    ([EvLock; EvOpen (ptmx_fd env); EvError "Cannot open child_ptty"] ++ err_ptty,
     Returns (-1) None)
  else
    let setup :=
      [EvLock; EvOpen (ptmx_fd env); EvOpen (child_fd env); EvSigBlock; EvFork] in
    if fork_pid env <? 0 then
      (setup ++ [EvClose (child_fd env); EvError "Failed to fork"] ++ err_fork,
       Returns (-1) None)
    else if fork_pid env =? 0 then
      let redirect :=
        [EvUnlock; EvSigSetmask; EvClose (ptmx_fd env);
         EvDup2 (child_fd env) 1; EvDup2 (child_fd env) 2;
         EvClose (child_fd env)] in
      let '(run, o) := child env in
      (setup ++ redirect ++ run, o)
    else
      let o := parent logwrap has_slot (pump_script env) (child_output env)
                 (stack_buffer env) in
      let before :=
        setup ++ [EvClose (child_fd env)] ++ when ignore_int_quit [EvSigIgnore]
          ++ [EvParent o] in
      match o with
      | ParentBlocked _ => (before, Blocks)
      | ParentReturns r =>
          (before ++ when ignore_int_quit [EvSigRestore] ++ err_fork,
           Returns (p_rc r) (p_slot r))
      end.

(** *** Reading a trace *)

(** Whether the lock is held after the events of [tr]. *)
Definition lock_step (held : bool) (e : event) : bool :=
  match e with
  | EvLock => true
  | EvUnlock => false
  | _ => held
  end.

Definition lock_held (tr : list event) : bool := foldl lock_step false tr.

Definition is_pump (e : event) : bool :=
  match e with EvParent _ => true | _ => false end.

(** Each event with the state of the lock while it happens. *)
Fixpoint with_lock (held : bool) (tr : list event) : list (bool * event) :=
  match tr with
  | [] => []
  | e :: tr' => (held, e) :: with_lock (lock_step held e) tr'
  end.

(** Whether the pump ever runs with the lock held. *)
Definition pump_under_lock (tr : list event) : bool :=
  existsb (fun p => fst p && is_pump (snd p)) (with_lock false tr).

(** The descriptors open after the events of [tr]. *)
Fixpoint remove_fd (fd : Z) (fds : list Z) : list Z :=
  match fds with
  | [] => []
  | x :: fds' => if x =? fd then fds' else x :: remove_fd fd fds'
  end.

Definition fd_step (fds : list Z) (e : event) : list Z :=
  match e with
  | EvOpen fd => fd :: fds
  | EvClose fd => remove_fd fd fds
  | _ => fds
  end.

Definition open_fds (tr : list event) : list Z := foldl fd_step [] tr.

(** What reaches the log sink. *)
Definition event_log (e : event) : list log_record :=
  match e with
  | EvError msg => [ERROR msg]
  | EvParent (ParentBlocked log) => log
  | EvParent (ParentReturns r) => p_log r
  | _ => []
  end.

Definition trace_log (tr : list event) : list log_record :=
  concat (map event_log tr).

(** A set-up call fails: lock, terminal, grant, unlock, name, slave or fork. *)
Definition setup_fails (env : launch_env) : bool :=
  negb (lock_rc env =? 0) || (ptmx_fd env <? 0)
  || negb (grantpt_rc env =? 0) || negb (unlockpt_rc env =? 0)
  || negb (ptsname_ok env) || (child_fd env <? 0) || (fork_pid env <? 0).

(** ** Vocabulary of the statements *)

(** The states the pump is in at the top of its loop, for a buffer that
    starts as [buf0]. *)
Inductive reachable (buf0 : list byte) : pump -> Prop :=
| reach_entry : reachable buf0 (Pump buf0 0 0)
| reach_pollin logwrap r stream st :
    reachable buf0 st ->
    reachable buf0 (on_pollin logwrap r stream st).1.1.

(** The fragment kept between two turns: [buffer[0 .. b)]. *)
Definition fragment (st : pump) : list byte :=
  take (Z.to_nat (b st)) (buffer st).

Definition is_eol (c : byte) : bool :=
  bool_decide (c = CR) || bool_decide (c = LF).

(** A turn of the loop after which the loop goes on. *)
Definition goes_on (p : poll_res) : bool :=
  match p with
  | PollOk _ None | PollOk _ (Some WaitNone) => true
  | _ => false
  end.

(** A turn of the loop in which [read], if called, does not fail. *)
Definition reads_ok (p : poll_res) : bool :=
  match p with
  | PollOk (Some RdErr) _ => false
  | _ => true
  end.

(** The loop over turns that all go on: the state they lead to. *)
Fixpoint run_turns (logwrap : bool) (script : list poll_res)
    (stream : list byte) (st : pump) (log : list log_record)
    : pump * list log_record * list byte :=
  match script with
  | PollOk (Some r) _ :: script' =>
      let '(st', out, stream') := on_pollin logwrap r stream st in
      run_turns logwrap script' stream' st' (log ++ out)
  | _ :: script' => run_turns logwrap script' stream st log
  | [] => (st, log, stream)
  end.

(** *** Lines, read off the byte stream *)

(** The pump as a scanner that takes the child's output one byte at a time:
    [cur] is the line begun.  A newline ends it, the 4095th byte without one
    ends it by force, the end of the output ends it if it is not empty.
    The pieces are the raw bytes, the newline left out. *)
Fixpoint segments_from (cur s : list byte) : list (emit_site * list byte) :=
  match s with
  | [] => match cur with [] => [] | _ => [(FinalFlush, cur)] end
  | c :: s' =>
      if decide (c = LF) then (PerLine, cur) :: segments_from [] s'
      else if decide (length (cur ++ [c]) = Z.to_nat (BUFSZ - 1)) then
        (ForcedFlush, cur ++ [c]) :: segments_from [] s'
      else segments_from (cur ++ [c]) s'
  end.

Definition segments (s : list byte) : list (emit_site * list byte) :=
  segments_from [] s.

(** The bytes of a piece that reach the log: those before its first
    carriage return or NUL. *)
Fixpoint cut (l : list byte) : list byte :=
  match l with
  | [] => []
  | c :: l' =>
      if decide (c = NUL) then [] else if decide (c = CR) then [] else c :: cut l'
  end.

Definition logged (p : emit_site * list byte) : emit_site * list byte :=
  (p.1, cut p.2).

Definition line_record (p : emit_site * list byte) : log_record :=
  ChildLine p.1 (cut p.2).

(** The bytes of the stream a piece stands for. *)
Definition raw (p : emit_site * list byte) : list byte :=
  match p.1 with
  | PerLine => p.2 ++ [LF]
  | _ => p.2
  end.




(** *** The scan loop on lists *)

(** What the scan loop writes over a byte. *)
Definition eol_to_nul (c : byte) : byte := if is_eol c then NUL else c.

Definition cr_to_nul (c : byte) : byte := if decide (c = CR) then NUL else c.

(** The scan loop over the bytes [todo] it visits, [cur] being
    [buffer[a .. b)]: the texts it logs and the bytes left after the last
    newline. *)
Fixpoint scan_list (todo cur : list byte) : list (list byte) * list byte :=
  match todo with
  | [] => ([], cur)
  | c :: t =>
      if decide (c = CR) then scan_list t (cur ++ [NUL])
      else if decide (c = LF) then
        let '(ls, r) := scan_list t [] in (c_str cur :: ls, r)
      else scan_list t (cur ++ [c])
  end.

(** What holds of the pump at the top of its loop. *)
Definition pump_inv (st : pump) : Prop :=
  a st = 0 /\ 0 <= b st <= BUFSZ - 2
  /\ length (buffer st) = Z.to_nat BUFSZ
  /\ Forall (fun c => is_eol c = false) (fragment st).


(** What the pump has logged and what it keeps, against the bytes
    [consumed] it has read so far: [rawcur] is the line begun, as the child
    wrote it. *)
Definition tracks (st : pump) (log : list log_record) (consumed : list byte)
    : Prop :=
  exists rawcur,
    pump_inv st
    /\ fragment st = map cr_to_nul rawcur
    /\ Forall (fun c => c <> LF) rawcur
    /\ forall s,
         map line_record (segments_from [] (consumed ++ s))
         = log ++ map line_record (segments_from rawcur s).

(** A launch that succeeds, seen from the parent, with descriptors 3 and 4
    and a buffer of zeros. *)
Definition env_exit (script : list poll_res) (out : list byte) : launch_env :=
  LaunchEnv 0 3 0 0 true 4 1000 true script out (replicate 4096 NUL).

(** *** More ways to read a run *)

(** The status the kernel reports for a child stopped by [sig]. *)
Definition W_STOPCODE (sig : Z) : Z := Z.lor (Z.shiftl sig 8) 127.

(** Whether the signal mask of the calling thread still is the one set by
    the SIG_BLOCK of this launch, after the events of [tr]. *)
Definition mask_step (blocked : bool) (e : event) : bool :=
  match e with
  | EvSigBlock => true
  | EvSigSetmask => false
  | _ => blocked
  end.

Definition mask_blocked (tr : list event) : bool := foldl mask_step false tr.

(** Whether SIGINT and SIGQUIT are set to SIG_IGN by this launch. *)
Definition ignore_step (ignored : bool) (e : event) : bool :=
  match e with
  | EvSigIgnore => true
  | EvSigRestore => false
  | _ => ignored
  end.

Definition int_quit_ignored (tr : list event) : bool :=
  foldl ignore_step false tr.

(** Whether every [close] and every [dup2] of [tr] is given a descriptor
    that is open at that moment, [fds] being open at the start. *)
Definition is_open (fd : Z) (fds : list Z) : bool := existsb (Z.eqb fd) fds.

Fixpoint fds_used_ok (fds : list Z) (tr : list event) : bool :=
  match tr with
  | [] => true
  | e :: tr' =>
      match e with
      | EvClose fd | EvDup2 fd _ => is_open fd fds
      | _ => true
      end && fds_used_ok (fd_step fds e) tr'
  end.

(** The records the loop itself can log for the child. *)
Definition from_loop (r : log_record) : bool :=
  match r with
  | ChildLine PerLine _ | ChildLine ForcedFlush _ => true
  | _ => false
  end.

Definition is_error (r : log_record) : bool :=
  match r with
  | ErrorRecord _ _ => true
  | _ => false
  end.

(** An outcome of [parent] with the error records only. *)
Definition quiet (o : parent_outcome) : parent_outcome :=
  match o with
  | ParentBlocked log => ParentBlocked (List.filter is_error log)
  | ParentReturns r =>
      ParentReturns
        (ParentResult (p_rc r) (p_slot r) (List.filter is_error (p_log r))
           (p_rest r))
  end.

Definition is_per_line (p : emit_site * list byte) : bool :=
  match p.1 with
  | PerLine => true
  | _ => false
  end.

(** The number of newlines in [s]. *)
Definition count_lf (s : list byte) : nat :=
  length (List.filter (fun c => bool_decide (c = LF)) s).



(** * Properties *)

(** Arithmetic on indices and lengths, with the capacity written out. *)
Ltac buf_lia := unfold BUFSZ in *; lia.

(** An event is not in an explicit list of other events. *)
Ltac not_among :=
  let Hin := fresh "Hin" in
  intros Hin;
  repeat (apply elem_of_cons in Hin as [Hin|Hin]; [discriminate|]);
  by apply elem_of_nil in Hin.

(** The tests of [android_fork_execvp] on the results of the set-up calls,
    when [H] says that none of them fails. *)
Ltac setup_succeeds H :=
  unfold setup_fails in H;
  repeat (apply orb_false_elim in H as [H ?]);
  unfold android_fork_execvp;
  rewrite H; cbn [negb];
  repeat match goal with
         | Hc : ?c = false |- context [?c] => rewrite Hc
         end;
  cbn [orb].

(** ** Wait statuses *)

Lemma land_127_shiftl8 n : Z.land (Z.shiftl n 8) 127 = 0.
Proof.
  change 127 with (Z.ones 7). rewrite Z.land_ones by lia.
  rewrite Z.shiftl_mul_pow2 by lia.
  change (2 ^ 8) with (2 * 2 ^ 7). rewrite Z.mul_assoc. apply Z.mod_mul. lia.
Qed.

Lemma WIFEXITED_exit n : WIFEXITED (W_EXITCODE n 0) = true.
Proof.
  unfold WIFEXITED, WTERMSIG, W_EXITCODE.
  rewrite Z.lor_0_r, land_127_shiftl8. reflexivity.
Qed.

Lemma WEXITSTATUS_exit n : 0 <= n <= 255 -> WEXITSTATUS (W_EXITCODE n 0) = n.
Proof.
  intros Hn. unfold WEXITSTATUS, W_EXITCODE. rewrite Z.lor_0_r.
  change 65280 with (Z.shiftl 255 8).
  rewrite <- Z.shiftl_land, Z.shiftr_shiftl_l, Z.sub_diag, Z.shiftl_0_r by lia.
  change 255 with (Z.ones 8). rewrite Z.land_ones by lia.
  apply Z.mod_small. lia.
Qed.

Lemma WTERMSIG_signaled sig core :
  0 <= sig <= 127 -> WTERMSIG (W_SIGNALED sig core) = sig.
Proof.
  intros Hs. unfold WTERMSIG, W_SIGNALED.
  rewrite Z.land_lor_distr_l.
  replace (Z.land (if core then 128 else 0) 127) with 0 by (by destruct core).
  rewrite Z.lor_0_r. change 127 with (Z.ones 7). rewrite Z.land_ones by lia.
  apply Z.mod_small. lia.
Qed.

Lemma WIFEXITED_signaled sig core :
  1 <= sig <= 127 -> WIFEXITED (W_SIGNALED sig core) = false.
Proof.
  intros Hs. unfold WIFEXITED. rewrite WTERMSIG_signaled by lia.
  apply Z.eqb_neq. lia.
Qed.

(** ** The loop over a script *)

Lemma pump_loop_turns logwrap pre rest stream st log :
  forallb goes_on pre = true ->
  pump_loop logwrap (pre ++ rest) stream st log =
  let '(st', log', stream') := run_turns logwrap pre stream st log in
  pump_loop logwrap rest stream' st' log'.
Proof.
  revert stream st log.
  induction pre as [|p pre IH]; intros stream st log Hpre; [done|].
  simpl in Hpre. apply andb_true_iff in Hpre as [Hp Hpre].
  destruct p as [|pin phup]; [done|].
  cbn [app pump_loop run_turns].
  destruct pin as [r|].
  - destruct (on_pollin logwrap r stream st) as [[st' out] stream'].
    destruct phup as [[| |]|]; try done; by apply IH.
  - destruct phup as [[| |]|]; try done; by apply IH.
Qed.

Lemma run_turns_app logwrap pre rest stream st log :
  run_turns logwrap (pre ++ rest) stream st log =
  let '(st', log', stream') := run_turns logwrap pre stream st log in
  run_turns logwrap rest stream' st' log'.
Proof.
  revert stream st log.
  induction pre as [|p pre IH]; intros stream st log; cbn [app run_turns].
  - by destruct (run_turns logwrap rest stream st log) as [[? ?] ?].
  - destruct p as [|[r|] phup]; try apply IH.
    destruct (on_pollin logwrap r stream st) as [[st' out] stream']. apply IH.
Qed.

(** A script whose last turn reaps the child makes [parent] return. *)
Lemma parent_reaps logwrap has_slot pre pin status stream buf0 :
  forallb goes_on pre = true ->
  exists r,
    parent logwrap has_slot (pre ++ [PollOk pin (Some (WaitGot status))])
      stream buf0 = ParentReturns r
    /\ p_rc r = (if has_slot then 0
                 else if WIFEXITED status then WEXITSTATUS status else - ECHILD)
    /\ p_slot r = (if has_slot then Some status else None).
Proof.
  intros Hpre. unfold parent. rewrite pump_loop_turns by done.
  destruct (run_turns logwrap pre stream (Pump buf0 0 0) []) as [[st' log'] stream'].
  cbn [pump_loop].
  destruct pin as [r|].
  - destruct (on_pollin logwrap r stream' st') as [[st2 out] stream2].
    eexists; split; [reflexivity|]. done.
  - eexists; split; [reflexivity|]. done.
Qed.

(** A launch whose set-up succeeds, seen from the parent. *)
Lemma launch_parent env has_slot ign logwrap :
  setup_fails env = false -> 0 < fork_pid env ->
  let o := parent logwrap has_slot (pump_script env) (child_output env)
             (stack_buffer env) in
  android_fork_execvp env has_slot ign logwrap =
  let before :=
    [EvLock; EvOpen (ptmx_fd env); EvOpen (child_fd env); EvSigBlock; EvFork;
     EvClose (child_fd env)] ++ when ign [EvSigIgnore] ++ [EvParent o] in
  match o with
  | ParentBlocked _ => (before, Blocks)
  | ParentReturns r =>
      (before ++ when ign [EvSigRestore]
         ++ [EvSigSetmask; EvClose (ptmx_fd env); EvUnlock],
       Returns (p_rc r) (p_slot r))
  end.
Proof.
  intros Hok Hpid o. subst o. setup_succeeds Hok.
  replace (fork_pid env =? 0) with false by (symmetry; apply Z.eqb_neq; lia).
  by destruct (parent _ _ _ _ _).
Qed.

(** The same launch, seen from the child. *)
Lemma launch_child env has_slot ign logwrap :
  setup_fails env = false -> fork_pid env = 0 ->
  android_fork_execvp env has_slot ign logwrap =
  let redirect :=
    [EvLock; EvOpen (ptmx_fd env); EvOpen (child_fd env); EvSigBlock; EvFork;
     EvUnlock; EvSigSetmask; EvClose (ptmx_fd env);
     EvDup2 (child_fd env) 1; EvDup2 (child_fd env) 2;
     EvClose (child_fd env); EvExec] in
  if exec_ok env then (redirect, ChildReplaced)
  else (redirect ++ [EvError "executing failed"], ChildExits (-1)).
Proof.
  intros Hok Hpid. setup_succeeds Hok. rewrite Hpid. cbn [Z.eqb].
  unfold child. by destruct (exec_ok env).
Qed.

(** ** The lock, the descriptors and the result of a launch *)

(** C1, as stated, fails: in the parent the pump runs with the lock held.
    A child that prints nothing and exits with code 0. *)
Lemma C1_counterexample :
  pump_under_lock
    (android_fork_execvp (env_exit [PollOk None (Some (WaitGot 0))] [])
       false false true).1 = true.
Proof. reflexivity. Qed.

(** C1, amended: when the set-up succeeds, the child branch releases the
    lock as its first step after fork; the parent branch does not: the lock
    is held while the pump runs and is released once, as the last step
    before the operation returns (never, if the pump never returns). *)
Theorem C1_lock_held_by_parent env has_slot ign logwrap :
  setup_fails env = false ->
  let tr := (android_fork_execvp env has_slot ign logwrap).1 in
  (fork_pid env = 0 ->
     exists pre post,
       tr = pre ++ EvFork :: EvUnlock :: post
       /\ lock_held pre = true /\ (EvUnlock ∉ pre) /\ (EvLock ∉ post))
  /\ (0 < fork_pid env ->
     exists pre o post,
       tr = pre ++ EvParent o :: post
       /\ (EvFork ∈ pre) /\ (EvUnlock ∉ pre) /\ lock_held pre = true
       /\ pump_under_lock tr = true
       /\ (post = [] /\ lock_held tr = true
           \/ exists post',
                post = post' ++ [EvUnlock] /\ (EvUnlock ∉ post')
                /\ lock_held tr = false)).
Proof.
  intros Hok tr. split.
  - intros Hpid. subst tr. rewrite launch_child by done.
    exists [EvLock; EvOpen (ptmx_fd env); EvOpen (child_fd env); EvSigBlock].
    destruct (exec_ok env); eexists; (split; [reflexivity|]);
      (split; [reflexivity|]); split; not_among.
  - intros Hpid. subst tr. rewrite launch_parent by done.
    set (o := parent _ _ _ _ _).
    exists ([EvLock; EvOpen (ptmx_fd env); EvOpen (child_fd env); EvSigBlock;
             EvFork; EvClose (child_fd env)] ++ when ign [EvSigIgnore]), o.
    assert (Hnotin : forall l, EvUnlock ∉ l -> lock_held ([EvLock] ++ l) = true).
    { intros l. unfold lock_held. cbn. clear.
      induction l as [|e l IH]; [done|]. intros Hl.
      apply not_elem_of_cons in Hl as [He Hl]. destruct e; try done; by apply IH. }
    assert (Hpre : EvUnlock ∉
              [EvOpen (ptmx_fd env); EvOpen (child_fd env); EvSigBlock; EvFork;
               EvClose (child_fd env)] ++ when ign [EvSigIgnore]).
    { destruct ign; not_among. }
    destruct o as [log|r] eqn:Ho.
    + exists []. cbn [fst]. rewrite <- (app_assoc _ _ [_]).
      split; [done|]. split; [apply list_elem_of_In; cbn; tauto|].
      split; [apply not_elem_of_cons; split; [done|apply Hpre]|].
      split; [by apply Hnotin|].
      split; [by destruct ign|].
      left. split; [done|]. by destruct ign.
    + exists (when ign [EvSigRestore]
                ++ [EvSigSetmask; EvClose (ptmx_fd env); EvUnlock]).
      cbn [fst]. split; [by rewrite <- !app_assoc|].
      split; [apply list_elem_of_In; cbn; tauto|].
      split; [apply not_elem_of_cons; split; [done|apply Hpre]|].
      split; [by apply Hnotin|].
      split; [by destruct ign|].
      right. exists (when ign [EvSigRestore] ++ [EvSigSetmask; EvClose (ptmx_fd env)]).
      split; [by rewrite <- app_assoc|].
      split; [|by destruct ign].
      destruct ign; not_among.
Qed.

Lemma C1_lock_held_by_parent_witness :
  exists pre o post,
    (android_fork_execvp (env_exit [PollOk None (Some (WaitGot 0))] [])
       false false true).1 = pre ++ EvParent o :: post
    /\ lock_held pre = true.
Proof.
  destruct (C1_lock_held_by_parent
              (env_exit [PollOk None (Some (WaitGot 0))] []) false false true)
    as [_ Hparent]; [reflexivity|].
  destruct Hparent as (pre & o & post & Htr & _ & _ & Hheld & _); [reflexivity|].
  exists pre, o, post. split; [exact Htr|exact Hheld].
Defined.

(** C4: without a status slot, a child that exits with code [n] in 0..255
    makes the operation return [n]; a child killed by a signal makes it
    return the one value [- ECHILD], negative, hence no exit code. *)
Theorem C4_status_translated env ign logwrap pre pin status :
  setup_fails env = false -> 0 < fork_pid env ->
  pump_script env = pre ++ [PollOk pin (Some (WaitGot status))] ->
  forallb goes_on pre = true ->
  (forall n, 0 <= n <= 255 -> status = W_EXITCODE n 0 ->
     (android_fork_execvp env false ign logwrap).2 = Returns n None)
  /\ (forall sig core, 1 <= sig <= 126 -> status = W_SIGNALED sig core ->
     (android_fork_execvp env false ign logwrap).2 = Returns (- ECHILD) None
     /\ - ECHILD < 0 /\ forall n, 0 <= n <= 255 -> - ECHILD <> n).
Proof.
  intros Hok Hpid Hscript Hpre.
  pose proof (launch_parent env false ign logwrap Hok Hpid) as Hlaunch.
  cbv zeta in Hlaunch. rewrite Hscript in Hlaunch.
  destruct (parent_reaps logwrap false pre pin status (child_output env)
              (stack_buffer env) Hpre) as (r & Hr & Hrc & Hslot).
  rewrite Hr in Hlaunch. rewrite Hlaunch. cbn [snd]. rewrite Hrc, Hslot.
  split.
  - intros n Hn ->. by rewrite WIFEXITED_exit, WEXITSTATUS_exit.
  - intros sig core Hsig ->. rewrite WIFEXITED_signaled by lia.
    split; [done|]. unfold ECHILD. split; [lia|]. intros n Hn. lia.
Qed.

Lemma C4_status_translated_witness :
  (android_fork_execvp
     (env_exit [PollOk None None; PollOk None (Some (WaitGot (W_EXITCODE 3 0)))] [])
     false false true).2 = Returns 3 None
  /\ (android_fork_execvp
        (env_exit [PollOk None (Some (WaitGot (W_SIGNALED 9 false)))] [])
        false false true).2 = Returns (- ECHILD) None.
Proof.
  split.
  - refine (proj1 (C4_status_translated
                     (env_exit [PollOk None None;
                                PollOk None (Some (WaitGot (W_EXITCODE 3 0)))] [])
                     false true [PollOk None None] None (W_EXITCODE 3 0)
                     _ _ _ _) 3 _ _); try reflexivity. lia.
  - refine (proj1 (proj2 (C4_status_translated
                     (env_exit [PollOk None (Some (WaitGot (W_SIGNALED 9 false)))] [])
                     false true [] None (W_SIGNALED 9 false)
                     _ _ _ _) 9 false _ _)); try reflexivity. lia.
Defined.

(** C5, as stated, fails: with a status slot the operation returns 0, not
    the raw status.  A child that exits with code 1, raw status 256. *)
Lemma C5_counterexample :
  (android_fork_execvp
     (env_exit [PollOk None (Some (WaitGot (W_EXITCODE 1 0)))] [])
     true false true).2 = Returns 0 (Some 256)
  /\ (0 : Z) <> W_EXITCODE 1 0.
Proof. split; [reflexivity|discriminate]. Qed.

(** C5, amended: when the caller supplies a status slot, the raw status of
    the child is stored in the slot and the integer returned is 0, for
    every status the child ends with. *)
Theorem C5_raw_status_in_slot env ign logwrap pre pin status :
  setup_fails env = false -> 0 < fork_pid env ->
  pump_script env = pre ++ [PollOk pin (Some (WaitGot status))] ->
  forallb goes_on pre = true ->
  (android_fork_execvp env true ign logwrap).2 = Returns 0 (Some status).
Proof.
  intros Hok Hpid Hscript Hpre.
  pose proof (launch_parent env true ign logwrap Hok Hpid) as Hlaunch.
  cbv zeta in Hlaunch. rewrite Hscript in Hlaunch.
  destruct (parent_reaps logwrap true pre pin status (child_output env)
              (stack_buffer env) Hpre) as (r & Hr & Hrc & Hslot).
  rewrite Hr in Hlaunch. rewrite Hlaunch. cbn [snd]. by rewrite Hrc, Hslot.
Qed.

Lemma C5_raw_status_in_slot_witness :
  (android_fork_execvp
     (env_exit [PollOk None (Some (WaitGot (W_SIGNALED 11 true)))] [])
     true false true).2 = Returns 0 (Some (W_SIGNALED 11 true)).
Proof.
  apply (C5_raw_status_in_slot
           (env_exit [PollOk None (Some (WaitGot (W_SIGNALED 11 true)))] [])
           false true [] None); reflexivity.
Defined.

(** C6, as stated, fails: when the lock cannot be taken the operation
    returns the error number of [pthread_mutex_lock], which is positive.
    Here EINVAL, 22. *)
Lemma C6_counterexample :
  let env := LaunchEnv 22 3 0 0 true 4 1000 true [] [] [] in
  setup_fails env = true
  /\ ~ exists rc slot,
         (android_fork_execvp env false false true).2 = Returns rc slot
         /\ rc < 0.
Proof.
  split; [reflexivity|]. intros (rc & slot & Hret & Hneg).
  cbn in Hret. injection Hret as <- _. lia.
Qed.

(** C6, amended: every set-up failure returns a nonzero result to the
    caller: -1 when the terminal, the grant, unlock or name resolution, the
    slave or fork fails, and the error number of the lock call when the
    lock cannot be taken.  No line is logged on the child's behalf, every
    descriptor opened on the path is closed and the lock is not left held. *)
Theorem C6_setup_failure env has_slot ign logwrap :
  setup_fails env = true ->
  (android_fork_execvp env has_slot ign logwrap).2 =
    Returns (if lock_rc env =? 0 then -1 else lock_rc env) None
  /\ (if lock_rc env =? 0 then -1 else lock_rc env) <> 0
  /\ child_lines (trace_log (android_fork_execvp env has_slot ign logwrap).1) = []
  /\ open_fds (android_fork_execvp env has_slot ign logwrap).1 = []
  /\ lock_held (android_fork_execvp env has_slot ign logwrap).1 = false.
Proof.
  unfold setup_fails, android_fork_execvp. intros Hfail.
  destruct (lock_rc env =? 0) eqn:Hlock; cbn [negb orb] in *.
  2:{ apply Z.eqb_neq in Hlock. by repeat split. }
  destruct (ptmx_fd env <? 0) eqn:Hptmx; [by repeat split|].
  cbn [orb] in Hfail.
  destruct (negb (grantpt_rc env =? 0) || negb (unlockpt_rc env =? 0)
            || negb (ptsname_ok env)) eqn:Hpt.
  { repeat split; try done. unfold open_fds. cbn. by rewrite Z.eqb_refl. }
  cbn [orb] in Hfail.
  destruct (child_fd env <? 0) eqn:Hchild.
  { repeat split; try done. unfold open_fds. cbn. by rewrite Z.eqb_refl. }
  cbn [orb] in Hfail. rewrite Hfail.
  repeat split; try done. unfold open_fds. cbn.
  rewrite Z.eqb_refl. cbn. by rewrite Z.eqb_refl.
Qed.

Lemma C6_setup_failure_witness :
  let env := LaunchEnv 0 3 0 0 true 4 (-1) true [] [] [] in
  (android_fork_execvp env false true true).2 = Returns (-1) None
  /\ open_fds (android_fork_execvp env false true true).1 = [].
Proof.
  intros env.
  destruct (C6_setup_failure env false true true) as (Hret & _ & _ & Hfds & _);
    [reflexivity|].
  split; [exact Hret|exact Hfds].
Defined.

(** ** The scan loop *)

Lemma buf_get_mid (pre : list byte) c rest :
  buf_get (pre ++ c :: rest) (Z.of_nat (length pre)) = c.
Proof.
  unfold buf_get. rewrite Nat2Z.id, nth_lookup.
  by rewrite list_lookup_middle.
Qed.

Lemma buf_set_mid (pre : list byte) c rest x :
  buf_set (pre ++ c :: rest) (Z.of_nat (length pre)) x = pre ++ x :: rest.
Proof.
  unfold buf_set. rewrite Nat2Z.id.
  replace (length pre) with (length pre + 0)%nat at 1 by lia.
  by rewrite insert_app_r.
Qed.

Lemma c_str_app_nul cur rest : c_str (cur ++ NUL :: rest) = c_str cur.
Proof.
  induction cur as [|c cur IH]; cbn.
  - by rewrite decide_True.
  - destruct (decide (c = NUL)); [done|]. by rewrite IH.
Qed.

Lemma eol_to_nul_other c : c <> CR -> c <> LF -> eol_to_nul c = c.
Proof.
  intros Hcr Hlf. unfold eol_to_nul, is_eol.
  by rewrite !bool_decide_eq_false_2.
Qed.

Lemma scan_list_length todo cur :
  (length (scan_list todo cur).2 <= length cur + length todo)%nat.
Proof.
  revert cur. induction todo as [|c t IH]; intros cur; cbn; [lia|].
  destruct (decide (c = CR)).
  - specialize (IH (cur ++ [NUL])). rewrite length_app in IH. cbn in IH. lia.
  - destruct (decide (c = LF)).
    + specialize (IH []). destruct (scan_list t []) as [ls r]. cbn in *. lia.
    + specialize (IH (cur ++ [c])). rewrite length_app in IH. cbn in IH. lia.
Qed.

(** The loop of the C function does what [scan_list] says: it visits the
    bytes [todo] that follow [pre] in the buffer. *)
Lemma scan_spec logwrap todo : forall pre tail a out,
  0 <= a <= Z.of_nat (length pre) ->
  let '(ls, r) := scan_list todo (drop (Z.to_nat a) pre) in
  scan logwrap (length todo) (Z.of_nat (length pre)) (pre ++ todo ++ tail) a out =
    (pre ++ map eol_to_nul todo ++ tail,
     Z.of_nat (length pre + length todo) - Z.of_nat (length r),
     out ++ (if logwrap then map (ChildLine PerLine) ls else []))
  /\ drop (length pre + length todo - length r) (pre ++ map eol_to_nul todo) = r.
Proof.
  induction todo as [|c t IH]; intros pre tail a0 out Ha.
  - cbn [scan_list scan length map app]. rewrite length_drop.
    split.
    + f_equal; [f_equal; lia|]. destruct logwrap; by rewrite app_nil_r.
    + rewrite app_nil_r. f_equal. lia.
  - cbn [scan_list scan length map].
    change (pre ++ (c :: t) ++ tail) with (pre ++ c :: (t ++ tail)).
    rewrite buf_get_mid, buf_set_mid.
    assert (Hnext : Z.of_nat (length pre) + 1 = Z.of_nat (length pre + 1)) by lia.
    assert (Hdrop : forall x,
      drop (Z.to_nat a0) (pre ++ [x]) = drop (Z.to_nat a0) pre ++ [x]).
    { intros x. rewrite drop_app_le by lia. done. }
    assert (Hall : drop (Z.to_nat (Z.of_nat (length pre) + 1)) (pre ++ [NUL]) = []).
    { apply drop_ge. rewrite length_app. cbn. lia. }
    rewrite Hnext.
    destruct (decide (c = CR)) as [->|Hcr].
    + specialize (IH (pre ++ [NUL]) tail a0 out).
      rewrite Hdrop, length_app in IH. cbn [length] in IH.
      rewrite <- !app_assoc in IH. cbn [app] in IH.
      destruct (scan_list t (drop (Z.to_nat a0) pre ++ [NUL])) as [ls r].
      destruct IH as [IH1 IH2]; [lia|].
      change (eol_to_nul CR) with NUL. split.
      * rewrite IH1. f_equal. f_equal. lia.
      * etrans; [|exact IH2]. f_equal. lia.
    + destruct (decide (c = LF)) as [->|Hlf].
      * specialize (IH (pre ++ [NUL]) tail (Z.of_nat (length pre) + 1)
                      (if logwrap
                       then out ++ [ChildLine PerLine
                                      (str_at (pre ++ NUL :: t ++ tail) a0)]
                       else out)).
        rewrite Hall, length_app in IH. cbn [length] in IH.
        rewrite <- !app_assoc in IH. cbn [app] in IH.
        destruct (scan_list t []) as [ls r].
        destruct IH as [IH1 IH2]; [lia|].
        change (eol_to_nul LF) with NUL. split.
        -- rewrite Hnext in IH1. rewrite IH1. f_equal; [f_equal; lia|].
           destruct logwrap; [|done].
           rewrite <- app_assoc. cbn [app map]. do 3 f_equal.
           unfold str_at. rewrite drop_app_le by lia.
           apply c_str_app_nul.
        -- etrans; [|exact IH2]. f_equal. lia.
      * specialize (IH (pre ++ [c]) tail a0 out).
        rewrite Hdrop, length_app in IH. cbn [length] in IH.
        rewrite <- !app_assoc in IH. cbn [app] in IH.
        destruct (scan_list t (drop (Z.to_nat a0) pre ++ [c])) as [ls r].
        destruct IH as [IH1 IH2]; [lia|].
        rewrite eol_to_nul_other by done. split.
        -- rewrite IH1. f_equal. f_equal. lia.
        -- etrans; [|exact IH2]. f_equal. lia.
Qed.

(** ** One turn of the loop with input *)

Lemma do_read_spec r stream st :
  0 <= b st <= BUFSZ - 2 -> length (buffer st) = Z.to_nat BUFSZ ->
  exists sz buf1 stream',
    do_read r stream st = (sz, buf1, stream')
    /\ -1 <= sz <= BUFSZ - 1 - b st
    /\ length buf1 = Z.to_nat BUFSZ
    /\ match r with
       | RdErr => sz = -1 /\ buf1 = buffer st /\ stream' = stream
       | RdAvail k =>
           exists data,
             stream = data ++ stream' /\ sz = Z.of_nat (length data)
             /\ take (Z.to_nat (sz + b st)) buf1 = fragment st ++ data
       end.
Proof.
  intros Hb Hlen. unfold BUFSZ in *. destruct r as [k|]; cbn [do_read].
  - set (data := take (Nat.min k (Z.to_nat (BUFSZ - 1 - b st))) stream).
    assert (Hdata : (length data <= Z.to_nat (BUFSZ - 1 - b st))%nat).
    { subst data. rewrite length_take. lia. }
    unfold BUFSZ in *.
    assert (Hfrag : length (take (Z.to_nat (b st)) (buffer st)) = Z.to_nat (b st)).
    { rewrite length_take. lia. }
    do 3 eexists. split; [reflexivity|].
    split; [lia|]. split.
    + unfold buf_write. rewrite !length_app, Hfrag, length_drop. lia.
    + exists data. split; [|split; [done|]].
      * subst data. rewrite length_take.
        set (m := Nat.min k _).
        destruct (decide (m <= length stream)%nat).
        -- rewrite Nat.min_l by done. by rewrite take_drop.
        -- rewrite Nat.min_r, take_ge, drop_all, app_nil_r by lia. done.
      * unfold buf_write, fragment. rewrite app_assoc.
        apply take_app_length'. rewrite length_app, Hfrag. lia.
  - do 3 eexists. split; [reflexivity|]. split; [lia|]. done.
Qed.

Lemma on_pollin_spec (logwrap : bool) r stream st :
  a st = 0 -> 0 <= b st <= BUFSZ - 2 -> length (buffer st) = Z.to_nat BUFSZ ->
  let '(sz, buf1, stream') := do_read r stream st in
  let todo := take (Z.to_nat (sz + b st)) buf1 in
  let '(ls, rem) := scan_list todo [] in
  let lines := if logwrap then map (ChildLine PerLine) ls else [] in
  let '(st', out, rest) := on_pollin logwrap r stream st in
  rest = stream' /\ a st' = 0 /\ length (buffer st') = Z.to_nat BUFSZ
  /\ (length rem <= length todo)%nat
  /\ rem = drop (length todo - length rem) (map eol_to_nul todo)
  /\ if decide (length rem = Z.to_nat (BUFSZ - 1)) then
       b st' = 0
       /\ out = lines ++ (if logwrap then [ChildLine ForcedFlush (c_str rem)]
                          else [])
     else
       b st' = Z.of_nat (length rem) /\ out = lines
       /\ take (length rem) (buffer st') = rem.
Proof.
  intros Ha Hb Hlen.
  destruct (do_read_spec r stream st Hb Hlen)
    as (sz & buf1 & stream' & Hread & Hsz & Hlen1 & _).
  unfold on_pollin. rewrite Hread, Ha.
  set (n := Z.to_nat (sz + b st)).
  set (todo := take n buf1). set (tail := drop n buf1).
  assert (Hn : (n <= Z.to_nat (BUFSZ - 1))%nat) by buf_lia.
  assert (Htodo : length todo = n).
  { subst todo. rewrite length_take. buf_lia. }
  assert (Htail : length tail = (Z.to_nat BUFSZ - n)%nat).
  { subst tail. rewrite length_drop. lia. }
  pose proof (scan_spec logwrap todo [] tail 0 []) as Hscan.
  pose proof (scan_list_length todo []) as Hrem.
  cbn [length app drop Z.to_nat] in Hscan, Hrem. rewrite drop_nil in Hscan.
  destruct (scan_list todo []) as [ls rem]. cbn [snd] in Hrem.
  destruct Hscan as [Hscan Hdrop]; [lia|].
  replace (scan logwrap n 0 buf1 0 []) with
    (scan logwrap (length todo) (Z.of_nat 0) (todo ++ tail) 0 []).
  2:{ rewrite Htodo. subst todo tail. by rewrite take_drop. }
  rewrite Hscan. cbn [app]. clear Hscan.
  replace (Z.max 0 (sz + b st)) with (Z.of_nat n) by lia.
  rewrite Htodo in *. rewrite Nat.add_0_l in *.
  set (todo' := map eol_to_nul todo) in *.
  assert (Htodo' : length todo' = n) by (subst todo'; by rewrite length_map).
  destruct (decide (length rem = Z.to_nat (BUFSZ - 1))) as [Hfull|Hfull].
  - (* the buffer is full and holds no newline *)
    assert (n = Z.to_nat (BUFSZ - 1)) as Hn' by lia.
    replace (Z.of_nat n - Z.of_nat (length rem)) with 0 by lia.
    replace (Z.of_nat n =? BUFSZ - 1) with true
      by (symmetry; apply Z.eqb_eq; buf_lia).
    cbn [Z.eqb andb].
    destruct tail as [|x [|y tail]];
      [cbn in Htail; buf_lia| |cbn in Htail; buf_lia].
    assert (Hset : buf_set (todo' ++ [x]) (Z.of_nat n) NUL = todo' ++ [NUL]).
    { rewrite <- Htodo'. apply buf_set_mid. }
    rewrite !Hset. cbv beta iota zeta. cbn [a b buffer].
    split; [done|]. split; [done|].
    split; [rewrite length_app; cbn [length]; buf_lia|].
    split; [lia|]. split; [done|]. split; [done|].
    destruct logwrap; [|by rewrite app_nil_r]. do 3 f_equal.
    change (str_at (todo' ++ [NUL]) 0) with (c_str (todo' ++ [NUL])).
    rewrite c_str_app_nul, <- Hdrop. by replace (n - length rem)%nat with 0%nat by lia.
  - replace ((Z.of_nat n - Z.of_nat (length rem) =? 0) && (Z.of_nat n =? BUFSZ - 1))
      with false.
    2:{ symmetry. apply andb_false_iff.
        destruct (decide (length rem = n)) as [Heq|Hne].
        - right. apply Z.eqb_neq. buf_lia.
        - left. apply Z.eqb_neq. lia. }
    destruct (decide (length rem = 0%nat)) as [Hnil|Hsome].
    + replace (Z.of_nat n - Z.of_nat (length rem) =? Z.of_nat n) with true
        by (symmetry; apply Z.eqb_eq; lia).
      cbv beta iota zeta. cbn [negb a b buffer].
      split; [done|]. split; [done|].
      split; [rewrite length_app; lia|].
      split; [lia|]. split; [done|].
      rewrite Hnil. split; [done|]. split; [done|].
      destruct rem; [done|discriminate].
    + replace (Z.of_nat n - Z.of_nat (length rem) =? Z.of_nat n) with false
        by (symmetry; apply Z.eqb_neq; lia).
      assert (Hmove :
        buf_memmove (todo' ++ tail) (Z.of_nat n - Z.of_nat (length rem))
          (Z.of_nat n - (Z.of_nat n - Z.of_nat (length rem)))
        = rem ++ drop (length rem) (todo' ++ tail)).
      { unfold buf_memmove.
        replace (Z.to_nat (Z.of_nat n - (Z.of_nat n - Z.of_nat (length rem))))
          with (length rem) by lia.
        replace (Z.to_nat (Z.of_nat n - Z.of_nat (length rem)))
          with (n - length rem)%nat by lia.
        rewrite drop_app_le by lia. rewrite Hdrop.
        by rewrite take_app_length. }
      rewrite Hmove.
      cbv beta iota zeta. cbn [negb a b buffer].
      split; [done|]. split; [done|]. split.
      { rewrite length_app, length_drop, length_app. lia. }
      split; [lia|]. split; [done|]. split; [lia|]. split; [done|].
      by rewrite take_app_length.
Qed.

Lemma eol_to_nul_not_eol c : is_eol (eol_to_nul c) = false.
Proof. unfold eol_to_nul. by destruct (is_eol c) eqn:Hc. Qed.

Lemma scan_list_no_eol l : forall l2 cur,
  Forall (fun c => is_eol c = false) l ->
  scan_list (l ++ l2) cur = scan_list l2 (cur ++ l).
Proof.
  induction l as [|c l IH]; intros l2 cur Hl; cbn [app scan_list].
  - by rewrite app_nil_r.
  - apply Forall_cons in Hl as [Hc Hl]. unfold is_eol in Hc.
    apply orb_false_elim in Hc as [Hcr Hlf].
    apply bool_decide_eq_false in Hcr, Hlf.
    rewrite !decide_False by done. rewrite IH by done.
    by rewrite <- app_assoc.
Qed.

(** Every turn keeps the pump as it has to be at the top of the loop,
    whatever [read] answers. *)
Lemma on_pollin_inv logwrap r stream st :
  pump_inv st -> pump_inv (on_pollin logwrap r stream st).1.1.
Proof.
  intros (Ha & Hb & Hlen & Hfrag).
  pose proof (on_pollin_spec logwrap r stream st Ha Hb Hlen) as Hspec.
  destruct (do_read_spec r stream st Hb Hlen)
    as (sz & buf1 & stream' & Hread & Hsz & Hlen1 & _).
  rewrite Hread in Hspec. cbv zeta in Hspec.
  pose proof (length_take buf1 (Z.to_nat (sz + b st))) as Htodo.
  destruct (scan_list (take (Z.to_nat (sz + b st)) buf1) []) as [ls rem].
  destruct (on_pollin logwrap r stream st) as [[st' out] rest].
  destruct Hspec as (_ & Ha' & Hlen' & Hrem & Hdrop & Hcase). cbn [fst].
  unfold pump_inv, fragment.
  destruct (decide (length rem = Z.to_nat (BUFSZ - 1))) as [Hfull|Hfull].
  - destruct Hcase as [Hb' _]. rewrite Hb'. unfold BUFSZ in *.
    repeat split; try done; try lia.
  - destruct Hcase as (Hb' & _ & Htake). rewrite Hb'. unfold BUFSZ in *.
    repeat split; try done; try lia.
    rewrite Nat2Z.id, Htake, Hdrop. apply Forall_drop, Forall_map.
    apply Forall_forall. intros c _. apply eol_to_nul_not_eol.
Qed.

Lemma reachable_inv buf0 st :
  length buf0 = Z.to_nat BUFSZ -> reachable buf0 st -> pump_inv st.
Proof.
  intros Hlen. induction 1 as [|logwrap r stream st _ IH].
  - unfold pump_inv, fragment. cbn. unfold BUFSZ. repeat split; try done; lia.
  - by apply on_pollin_inv.
Qed.

(** C8: the invariant 0 <= a <= b <= capacity of the line buffer holds at
    the top of every turn of the loop, whatever [read] answered before; a
    turn with input, through the scan and the forced flush, the move of the
    left-overs or the reset, gives it back; the capacity never changes. *)
Theorem C8_buffer_invariant buf0 st :
  length buf0 = Z.to_nat BUFSZ -> reachable buf0 st ->
  (0 <= a st <= b st /\ b st <= BUFSZ /\ length (buffer st) = Z.to_nat BUFSZ)
  /\ forall logwrap r stream,
       let st' := (on_pollin logwrap r stream st).1.1 in
       0 <= a st' <= b st' /\ b st' <= BUFSZ
       /\ length (buffer st') = Z.to_nat BUFSZ.
Proof.
  intros Hlen Hreach.
  assert (Hweak : forall st0, pump_inv st0 ->
    0 <= a st0 <= b st0 /\ b st0 <= BUFSZ
    /\ length (buffer st0) = Z.to_nat BUFSZ).
  { intros st0 (Ha & Hb & Hlen' & _).
    unfold BUFSZ in *. repeat split; try done; lia. }
  pose proof (reachable_inv buf0 st Hlen Hreach) as Hinv.
  split; [by apply Hweak|].
  intros logwrap r stream st'. by apply Hweak, on_pollin_inv.
Qed.

Lemma C8_buffer_invariant_witness :
  let st := (on_pollin true (RdAvail 3) [x61; LF; x62]
               (Pump (replicate 4096 NUL) 0 0)).1.1 in
  0 <= a st <= b st /\ b st <= BUFSZ /\ length (buffer st) = Z.to_nat BUFSZ.
Proof.
  intros st.
  apply (C8_buffer_invariant (replicate 4096 NUL) st); [reflexivity|].
  apply reach_pollin, reach_entry.
Defined.

(** ** A read that brings nothing *)

(** A turn in which [read] returns 0 or -1 logs nothing; with 0 the
    fragment is kept as it is. *)
Lemma on_pollin_no_data logwrap r stream st :
  pump_inv st -> (do_read r stream st).1.1 <= 0 ->
  let '(st', out, stream') := on_pollin logwrap r stream st in
  out = [] /\ stream' = stream /\ pump_inv st'
  /\ ((do_read r stream st).1.1 = 0 ->
        b st' = b st /\ fragment st' = fragment st).
Proof.
  intros Hinv Hsz0.
  pose proof (on_pollin_inv logwrap r stream st Hinv) as Hinv'.
  destruct Hinv as (Ha & Hb & Hlen & Hfrag).
  pose proof (on_pollin_spec logwrap r stream st Ha Hb Hlen) as Hspec.
  destruct (do_read_spec r stream st Hb Hlen)
    as (sz & buf1 & stream' & Hread & Hsz & Hlen1 & Hr).
  rewrite Hread in Hspec, Hsz0. cbn [fst] in Hsz0. cbv zeta in Hspec.
  rewrite Hread. cbn [fst].
  assert (Htodo : take (Z.to_nat (sz + b st)) buf1
                  = take (Z.to_nat (sz + b st)) (fragment st)
                  /\ stream' = stream).
  { destruct r as [k|].
    - destruct Hr as (data & Hstream & Hdata & Htake).
      assert (data = []) as -> by (destruct data; [done|cbn in Hdata; lia]).
      rewrite Htake, app_nil_r. cbn in Hdata. subst sz. split; [|done].
      unfold fragment. replace (0 + b st) with (b st) by lia.
      by rewrite take_take, Nat.min_id.
    - destruct Hr as (-> & -> & ->). split; [|done].
      unfold fragment. rewrite take_take. f_equal. lia. }
  destruct Htodo as [Htodo ->]. rewrite Htodo in Hspec.
  set (todo := take (Z.to_nat (sz + b st)) (fragment st)) in *.
  assert (Hno : Forall (fun c => is_eol c = false) todo) by by apply Forall_take.
  pose proof (scan_list_no_eol todo [] [] Hno) as Hscan.
  rewrite app_nil_r in Hscan. cbn [scan_list app] in Hscan. rewrite Hscan in Hspec.
  destruct (on_pollin logwrap r stream st) as [[st' out] rest].
  destruct Hspec as (-> & Ha' & Hlen' & _ & _ & Hcase). cbn [fst] in Hinv'.
  assert (Hlt : (length todo <= Z.to_nat (b st))%nat).
  { subst todo. rewrite length_take. unfold fragment. rewrite length_take. lia. }
  rewrite decide_False in Hcase by buf_lia.
  destruct Hcase as (Hb' & -> & Htake).
  split; [by destruct logwrap|]. split; [done|]. split; [done|].
  intros ->. subst todo. replace (0 + b st) with (b st) in * by lia.
  assert (Hfull : take (Z.to_nat (b st)) (fragment st) = fragment st).
  { unfold fragment. by rewrite take_take, Nat.min_id. }
  rewrite Hfull in *.
  assert (Hlenf : length (fragment st) = Z.to_nat (b st)).
  { unfold fragment. rewrite length_take. buf_lia. }
  split; [lia|].
  unfold fragment at 1. rewrite Hb', Nat2Z.id. exact Htake.
Qed.

(** C3, as stated, fails: a failed [read] does not abort the pump and no
    error reaches the caller, and a byte of the fragment is lost on the way.
    The child prints "ab", a read fails, the child prints "cd" and exits
    with code 0: the fragment "ab" becomes "a", the pump goes on, logs
    "acd" and returns 0. *)
Lemma C3_counterexample :
  let st := (on_pollin true (RdAvail 2) [x61; x62; x63; x64]
               (Pump (replicate 4096 NUL) 0 0)).1.1 in
  fragment st = [x61; x62]
  /\ fragment (on_pollin true RdErr [x63; x64] st).1.1 = [x61]
  /\ parent true false
       [PollOk (Some (RdAvail 2)) None; PollOk (Some RdErr) None;
        PollOk (Some (RdAvail 2)) (Some (WaitGot 0))]
       [x61; x62; x63; x64] (replicate 4096 NUL)
     = ParentReturns
         (ParentResult 0 None [ChildLine FinalFlush [x61; x63; x64]] []).
Proof. vm_compute. repeat split; reflexivity. Qed.

(** C3, amended: in a turn where the descriptor is readable, a [read] that
    returns 0 brings no line, leaves the fragment as it is, and the loop
    goes on; a [read] that fails is not surfaced to the caller either: it
    logs nothing, consumes nothing, and the loop goes on to the next poll. *)
Theorem C3_empty_or_failed_read logwrap r phup script stream st log :
  pump_inv st -> (do_read r stream st).1.1 <= 0 ->
  goes_on (PollOk (Some r) phup) = true ->
  let st' := (on_pollin logwrap r stream st).1.1 in
  pump_loop logwrap (PollOk (Some r) phup :: script) stream st log
    = pump_loop logwrap script stream st' log
  /\ pump_inv st'
  /\ ((do_read r stream st).1.1 = 0 ->
        b st' = b st /\ fragment st' = fragment st).
Proof.
  intros Hinv Hsz Hgo st'. subst st'.
  pose proof (on_pollin_no_data logwrap r stream st Hinv Hsz) as Hno.
  cbn [pump_loop].
  destruct (on_pollin logwrap r stream st) as [[st' out] stream'].
  destruct Hno as (-> & -> & Hinv' & Hkeep). cbn [fst].
  rewrite app_nil_r. split; [|done].
  by destruct phup as [[| |]|].
Qed.

Lemma C3_empty_or_failed_read_witness :
  let st := Pump ([x61; x62] ++ replicate 4094 NUL) 0 2 in
  let st' := (on_pollin true (RdAvail 0) [x63] st).1.1 in
  b st' = b st /\ fragment st' = fragment st.
Proof.
  intros st st'.
  refine (proj2 (proj2 (C3_empty_or_failed_read true (RdAvail 0) None []
                          [x63] st [] _ _ _)) _).
  - unfold pump_inv. vm_compute. repeat split; try discriminate.
    repeat constructor.
  - vm_compute. discriminate.
  - reflexivity.
  - reflexivity.
Defined.

(** ** The pump against the byte-at-a-time scanner *)

Lemma cut_c_str l : c_str (map cr_to_nul l) = cut l.
Proof.
  induction l as [|c l IH]; [done|]. cbn [map c_str cut].
  destruct (decide (c = CR)) as [->|Hcr]; [done|].
  replace (cr_to_nul c) with c by (unfold cr_to_nul; by rewrite decide_False).
  destruct (decide (c = NUL)); [done|]. by rewrite IH.
Qed.

Lemma scan_list_other c t cur :
  c <> LF -> scan_list (c :: t) cur = scan_list t (cur ++ [cr_to_nul c]).
Proof.
  intros Hlf. cbn [scan_list]. unfold cr_to_nul.
  destruct (decide (c = CR)); [done|]. by rewrite decide_False.
Qed.

(** One turn, on lists: the lines found in [chunk] after the line begun
    are those of the scanner, and so is what is kept. *)
Lemma turn_segments chunk : forall rawcur,
  Forall (fun c => c <> LF) rawcur ->
  (length rawcur + length chunk <= Z.to_nat (BUFSZ - 1))%nat ->
  (length rawcur < Z.to_nat (BUFSZ - 1))%nat ->
  let '(ls, rem) := scan_list chunk (map cr_to_nul rawcur) in
  if decide (length rem = Z.to_nat (BUFSZ - 1)) then
    forall s,
      map line_record (segments_from rawcur (chunk ++ s))
      = map (ChildLine PerLine) ls
        ++ ChildLine ForcedFlush (c_str rem)
        :: map line_record (segments_from [] s)
  else
    exists rawcur',
      rem = map cr_to_nul rawcur' /\ Forall (fun c => c <> LF) rawcur'
      /\ forall s,
           map line_record (segments_from rawcur (chunk ++ s))
           = map (ChildLine PerLine) ls
             ++ map line_record (segments_from rawcur' s).
Proof.
  induction chunk as [|c t IH]; intros rawcur Hraw Hfit Hroom.
  - cbn [scan_list]. rewrite decide_False by (rewrite length_map; lia).
    by exists rawcur.
  - cbn [length] in Hfit. destruct (decide (c = LF)) as [->|Hlf].
    + cbn [scan_list]. rewrite decide_False by done. rewrite decide_True by done.
      specialize (IH [] (Forall_nil_2 _)). cbn [map length] in IH.
      destruct (scan_list t []) as [ls rem].
      specialize (IH ltac:(lia) ltac:(unfold BUFSZ; lia)).
      destruct (decide (length rem = Z.to_nat (BUFSZ - 1))).
      * intros s. cbn [app segments_from]. rewrite decide_True by done.
        cbn [map]. rewrite IH. unfold line_record at 1. cbn [fst snd].
        by rewrite cut_c_str.
      * destruct IH as (rawcur' & Hrem & Hraw' & IH). exists rawcur'.
        split; [done|]. split; [done|]. intros s.
        cbn [app segments_from]. rewrite decide_True by done.
        cbn [map]. rewrite IH. unfold line_record at 1. cbn [fst snd].
        by rewrite cut_c_str.
    + rewrite scan_list_other by done.
      replace (map cr_to_nul rawcur ++ [cr_to_nul c])
        with (map cr_to_nul (rawcur ++ [c])) by (by rewrite map_app).
      destruct (decide (length (rawcur ++ [c]) = Z.to_nat (BUFSZ - 1)))
        as [Hfull|Hfull].
      * rewrite length_app in Hfull. cbn [length] in Hfull.
        assert (t = []) as -> by (destruct t; [done|cbn in Hfit; lia]).
        cbn [scan_list]. rewrite decide_True
          by (by rewrite length_map, length_app).
        intros s. cbn [app segments_from map].
        rewrite decide_False by done.
        rewrite decide_True by (by rewrite length_app).
        cbn [map]. unfold line_record at 1. cbn [fst snd].
        by rewrite cut_c_str.
      * rewrite length_app in Hfull. cbn [length] in Hfull.
        specialize (IH (rawcur ++ [c])).
        rewrite length_app in IH. cbn [length] in IH.
        specialize (IH ltac:(apply Forall_app; split; [done|by constructor])
                      ltac:(lia) ltac:(lia)).
        destruct (scan_list t (map cr_to_nul (rawcur ++ [c]))) as [ls rem].
        destruct (decide (length rem = Z.to_nat (BUFSZ - 1))).
        -- intros s. cbn [app segments_from].
           rewrite decide_False by done.
           rewrite decide_False by (by rewrite length_app).
           apply IH.
        -- destruct IH as (rawcur' & Hrem & Hraw' & IH). exists rawcur'.
           split; [done|]. split; [done|]. intros s.
           cbn [app segments_from].
           rewrite decide_False by done.
           rewrite decide_False by (by rewrite length_app).
           apply IH.
Qed.

(** One turn in which [read] succeeds keeps the pump on the scanner's track. *)
Lemma on_pollin_tracks k stream st log consumed :
  tracks st log consumed ->
  let '(st', out, stream') := on_pollin true (RdAvail k) stream st in
  exists data,
    stream = data ++ stream' /\ tracks st' (log ++ out) (consumed ++ data).
Proof.
  intros (rawcur & Hinv & Hfrag & Hraw & Hseg).
  pose proof (on_pollin_inv true (RdAvail k) stream st Hinv) as Hinv'.
  destruct Hinv as (Ha & Hb & Hlen & Hnoeol).
  pose proof (on_pollin_spec true (RdAvail k) stream st Ha Hb Hlen) as Hspec.
  destruct (do_read_spec (RdAvail k) stream st Hb Hlen)
    as (sz & buf1 & stream' & Hread & Hsz & Hlen1 & data & Hstream & Hdata & Htake).
  rewrite Hread in Hspec. cbv zeta in Hspec. rewrite Htake in Hspec.
  assert (Hlenf : length rawcur = Z.to_nat (b st)).
  { rewrite <- (length_map cr_to_nul), <- Hfrag. unfold fragment.
    rewrite length_take. buf_lia. }
  pose proof (turn_segments data rawcur Hraw) as Hturn.
  rewrite (scan_list_no_eol (fragment st) data []) in Hspec by done.
  cbn [app] in Hspec. rewrite Hfrag in Hspec.
  destruct (scan_list data (map cr_to_nul rawcur)) as [ls rem].
  destruct (on_pollin true (RdAvail k) stream st) as [[st' out] rest].
  destruct Hspec as (-> & Ha' & Hlen' & Hrem & Hdrop & Hcase).
  cbn [fst] in Hinv'.
  specialize (Hturn ltac:(buf_lia) ltac:(buf_lia)).
  exists data. split; [done|].
  destruct (decide (length rem = Z.to_nat (BUFSZ - 1))) as [Hfull|Hfull].
  - destruct Hcase as [Hb' ->]. exists [].
    split; [done|]. split; [unfold fragment; by rewrite Hb'|].
    split; [done|]. intros s.
    rewrite <- app_assoc, Hseg, Hturn, <- !app_assoc. done.
  - destruct Hcase as (Hb' & -> & Htake').
    destruct Hturn as (rawcur' & Hrem' & Hraw' & Hturn). exists rawcur'.
    split; [done|]. split.
    { unfold fragment. rewrite Hb', Nat2Z.id, Htake'. done. }
    split; [done|]. intros s.
    rewrite <- app_assoc, Hseg, Hturn, <- !app_assoc. done.
Qed.

(** So do the turns of a script in which no [read] fails. *)
Lemma run_turns_tracks pre : forall stream st log consumed,
  forallb reads_ok pre = true ->
  tracks st log consumed ->
  let '(st', log', stream') := run_turns true pre stream st log in
  exists consumed',
    consumed ++ stream = consumed' ++ stream' /\ tracks st' log' consumed'.
Proof.
  induction pre as [|p pre IH]; intros stream st log consumed Hok Htr.
  - cbn. by exists consumed.
  - cbn [forallb] in Hok. apply andb_true_iff in Hok as [Hp Hok].
    destruct p as [|[[k|]|] phup]; cbn [run_turns]; try done;
      try by apply IH.
    pose proof (on_pollin_tracks k stream st log consumed Htr) as Hturn.
    destruct (on_pollin true (RdAvail k) stream st) as [[st' out] stream'].
    destruct Hturn as (data & -> & Htr').
    specialize (IH stream' st' (log ++ out) (consumed ++ data) Hok Htr').
    destruct (run_turns true pre stream' st' (log ++ out)) as [[st2 log2] stream2].
    destruct IH as (consumed' & Heq & Htr2). exists consumed'.
    split; [by rewrite <- Heq, <- app_assoc|done].
Qed.

Lemma tracks_entry buf0 :
  length buf0 = Z.to_nat BUFSZ -> tracks (Pump buf0 0 0) [] [].
Proof.
  intros Hlen. exists []. split.
  { unfold pump_inv, fragment. cbn. unfold BUFSZ. repeat split; try done; lia. }
  done.
Qed.

Lemma summary_no_child_line status : child_lines (summary status) = [].
Proof.
  unfold summary.
  by repeat match goal with |- context [if ?c then _ else _] => destruct c end.
Qed.

Lemma child_lines_line_records l :
  child_lines (map line_record l) = map logged l.
Proof.
  unfold child_lines. induction l as [|p l IH]; [done|]. cbn. by f_equal.
Qed.

(** ** The forced flush *)

Lemma scan_list_full todo : forall cur,
  length (scan_list todo cur).2 = (length cur + length todo)%nat ->
  (scan_list todo cur).1 = [].
Proof.
  induction todo as [|c t IH]; intros cur Hfull; [done|].
  cbn [scan_list] in *. destruct (decide (c = CR)).
  - apply IH. rewrite Hfull, length_app. cbn. lia.
  - destruct (decide (c = LF)).
    + pose proof (scan_list_length t []) as Hle.
      destruct (scan_list t []) as [ls r]. cbn in *. lia.
    + apply IH. rewrite Hfull, length_app. cbn. lia.
Qed.

(** The forced flush is logged only in a turn that finds no newline and
    fills the buffer up to its last byte but one; both indices are 0 after. *)
Lemma forced_flush_when_full r stream st txt :
  pump_inv st ->
  ChildLine ForcedFlush txt ∈ (on_pollin true r stream st).1.2 ->
  (on_pollin true r stream st).1.2 = [ChildLine ForcedFlush txt]
  /\ (do_read r stream st).1.1 + b st = BUFSZ - 1
  /\ a (on_pollin true r stream st).1.1 = 0
  /\ b (on_pollin true r stream st).1.1 = 0.
Proof.
  intros (Ha & Hb & Hlen & _).
  pose proof (on_pollin_spec true r stream st Ha Hb Hlen) as Hspec.
  destruct (do_read_spec r stream st Hb Hlen)
    as (sz & buf1 & stream' & Hread & Hsz & Hlen1 & _).
  rewrite Hread in *. cbv zeta in Hspec. cbn [fst].
  pose proof (length_take buf1 (Z.to_nat (sz + b st))) as Htodo.
  pose proof (scan_list_full (take (Z.to_nat (sz + b st)) buf1) []) as Hfull.
  destruct (scan_list (take (Z.to_nat (sz + b st)) buf1) []) as [ls rem].
  destruct (on_pollin true r stream st) as [[st' out] rest].
  destruct Hspec as (_ & Ha' & _ & Hrem & _ & Hcase). cbn [fst snd] in *.
  intros Hin.
  destruct (decide (length rem = Z.to_nat (BUFSZ - 1))) as [Hf|Hf].
  - destruct Hcase as [Hb' ->].
    assert (ls = []) as -> by (apply Hfull; cbn [length]; buf_lia).
    cbn [map app] in *.
    apply list_elem_of_singleton in Hin. rewrite Hin.
    split; [done|]. split; [buf_lia|done].
  - destruct Hcase as (_ & -> & _).
    apply list_elem_of_fmap in Hin as (l & Habs & _). discriminate.
Qed.

(** ** Lines and the bytes they come from *)

(** The pieces of the scanner are the stream, cut up. *)
Lemma segments_from_raw s : forall cur,
  concat (map raw (segments_from cur s)) = cur ++ s.
Proof.
  induction s as [|c s IH]; intros cur; cbn [segments_from].
  - destruct cur; [done|]. cbn. by rewrite !app_nil_r.
  - destruct (decide (c = LF)) as [->|Hlf].
    + cbn [map concat]. rewrite IH. unfold raw. cbn. by rewrite <- app_assoc.
    + destruct (decide (length (cur ++ [c]) = Z.to_nat (BUFSZ - 1))).
      * cbn [map concat]. rewrite IH. unfold raw. cbn. by rewrite <- app_assoc.
      * rewrite IH. by rewrite <- app_assoc.
Qed.

Lemma segments_from_no_lf s : forall cur,
  Forall (fun c => c <> LF) cur ->
  Forall (fun p => Forall (fun c => c <> LF) p.2) (segments_from cur s).
Proof.
  induction s as [|c s IH]; intros cur Hcur; cbn [segments_from].
  - destruct cur; [done|]. by constructor.
  - destruct (decide (c = LF)) as [->|Hlf].
    + constructor; [done|]. by apply IH.
    + assert (Forall (fun c => c <> LF) (cur ++ [c]))
        by (apply Forall_app; split; [done|by constructor]).
      destruct (decide (length (cur ++ [c]) = Z.to_nat (BUFSZ - 1))).
      * constructor; [done|]. by apply IH.
      * by apply IH.
Qed.



Lemma cut_take l : take (length (cut l)) l = cut l.
Proof.
  induction l as [|c l IH]; [done|]. cbn [cut].
  destruct (decide (c = NUL)); [done|]. destruct (decide (c = CR)); [done|].
  cbn. by rewrite IH.
Qed.






Lemma child_lines_app l1 l2 :
  child_lines (l1 ++ l2) = child_lines l1 ++ child_lines l2.
Proof.
  unfold child_lines. induction l1 as [|r l1 IH]; [done|].
  cbn. rewrite IH. by destruct (child_line r).
Qed.

Lemma parent_child_lines r consumed status :
  p_log r = map line_record (segments consumed) ++ summary status ->
  child_lines (p_log r) = map logged (segments consumed).
Proof.
  intros ->.
  by rewrite child_lines_app, summary_no_child_line, app_nil_r,
    child_lines_line_records.
Qed.




(** ** A run that reaps the child *)

Section Reaped.

(** The script goes on turn after turn and reaps the child in its last
    turn; no [read] fails; logging is on. *)
Context (has_slot : bool) (pre : list poll_res) (pin : option read_res)
  (status : Z) (stream buf0 : list byte).

Local Abbreviation script := (pre ++ [PollOk pin (Some (WaitGot status))]).

Hypothesis Hlen : length buf0 = Z.to_nat BUFSZ.
Hypothesis Hgo : forallb goes_on pre = true.
Hypothesis Hok : forallb reads_ok script = true.

(** The pump, whole: when the script reaps the child at last and no [read]
    fails, [parent] returns, and what it has logged are the lines of the
    scanner for the bytes it has read, then the summary. *)
Lemma parent_lines :
  exists r consumed,
    parent true has_slot script stream buf0 = ParentReturns r
    /\ stream = consumed ++ p_rest r
    /\ p_log r = map line_record (segments consumed) ++ summary status
    /\ p_rc r = (if has_slot then 0
                 else if WIFEXITED status then WEXITSTATUS status else - ECHILD)
    /\ p_slot r = (if has_slot then Some status else None).
Proof.
  unfold parent. rewrite pump_loop_turns by done.
  pose proof (run_turns_tracks (pre ++ [PollOk pin (Some (WaitGot status))])
                stream (Pump buf0 0 0) [] [] Hok (tracks_entry buf0 Hlen)) as Hrun.
  rewrite run_turns_app in Hrun.
  destruct (run_turns true pre stream (Pump buf0 0 0) []) as [[st1 log1] stream1].
  cbn [pump_loop run_turns] in *.
  assert (Hlast : exists st2 log2 stream2 consumed,
    match pin with
    | Some r =>
        let '(st', out, stream') := on_pollin true r stream1 st1 in
        (st', log1 ++ out, stream')
    | None => (st1, log1, stream1)
    end = (st2, log2, stream2)
    /\ stream = consumed ++ stream2 /\ tracks st2 log2 consumed).
  { destruct pin as [r|].
    - destruct (on_pollin true r stream1 st1) as [[st' out] stream'].
      destruct Hrun as (consumed & Heq & Htr). by exists st', (log1 ++ out), stream', consumed.
    - destruct Hrun as (consumed & Heq & Htr). by exists st1, log1, stream1, consumed. }
  destruct Hlast as (st2 & log2 & stream2 & consumed & -> & Hstream & Htr).
  eexists; exists consumed. split; [reflexivity|]. cbn [p_rest p_log p_rc p_slot].
  split; [done|]. split; [|done].
  destruct Htr as (rawcur & (Ha & Hb & Hlen2 & _) & Hfrag & _ & Hseg).
  specialize (Hseg []). rewrite app_nil_r in Hseg. unfold segments.
  rewrite Hseg, Ha. rewrite <- app_assoc. do 2 f_equal.
  assert (Hlenf : length rawcur = Z.to_nat (b st2)).
  { rewrite <- (length_map cr_to_nul), <- Hfrag. unfold fragment.
    rewrite length_take. buf_lia. }
  destruct (decide (b st2 = 0)) as [Hb0|Hb0].
  - rewrite Hb0. cbn [Z.eqb negb app].
    assert (rawcur = []) as -> by (destruct rawcur; [done|cbn in Hlenf; lia]).
    done.
  - replace (0 =? b st2) with false by (symmetry; apply Z.eqb_neq; lia).
    cbn [negb].
    assert (Hlast : segments_from rawcur [] = [(FinalFlush, rawcur)]).
    { destruct rawcur; [cbn in Hlenf; lia|done]. }
    rewrite Hlast. cbn [map]. unfold line_record. cbn [fst snd]. do 2 f_equal.
    rewrite <- cut_c_str, <- Hfrag. unfold str_at, fragment, buf_set.
    cbn [Z.to_nat drop].
    rewrite <- (take_drop (Z.to_nat (b st2)) (buffer st2)) at 1.
    assert (Htk : length (take (Z.to_nat (b st2)) (buffer st2)) = Z.to_nat (b st2)).
    { rewrite length_take. buf_lia. }
    destruct (drop (Z.to_nat (b st2)) (buffer st2)) as [|x tl] eqn:Hdr.
    { apply (f_equal length) in Hdr. rewrite length_drop in Hdr.
      cbn in Hdr. buf_lia. }
    rewrite <- Htk at 1.
    replace (length (take (Z.to_nat (b st2)) (buffer st2)))
      with (length (take (Z.to_nat (b st2)) (buffer st2)) + 0)%nat at 1 by lia.
    rewrite insert_app_r. cbn. apply c_str_app_nul.
Qed.


End Reaped.



(** A child that writes 5000 bytes ['a'] and no newline, then exits with
    code 0.  When no [read] fails, however the bytes are spread over the
    reads, once they are all read the log holds one line of 4095 ['a'], logged by the forced
    flush, then one line of the 905 that remain, logged by the final flush,
    and the result is the exit code.  A forced flush happens only when no
    line was found and [b] has reached capacity - 1, and leaves both indices
    at 0. *)
Theorem five_thousand_bytes_when_all_read pre pin buf0 :
  length buf0 = Z.to_nat BUFSZ ->
  forallb goes_on pre = true ->
  forallb reads_ok (pre ++ [PollOk pin (Some (WaitGot (W_EXITCODE 0 0)))]) = true ->
  (exists r,
     parent true false (pre ++ [PollOk pin (Some (WaitGot (W_EXITCODE 0 0)))])
       (replicate 5000 x61) buf0 = ParentReturns r
     /\ (p_rest r = [] ->
         p_log r = [ChildLine ForcedFlush (replicate 4095 x61);
                    ChildLine FinalFlush (replicate 905 x61)]
         /\ p_rc r = 0))
  /\ (forall r stream st txt,
        pump_inv st ->
        ChildLine ForcedFlush txt ∈ (on_pollin true r stream st).1.2 ->
        (on_pollin true r stream st).1.2 = [ChildLine ForcedFlush txt]
        /\ (do_read r stream st).1.1 + b st = BUFSZ - 1
        /\ a (on_pollin true r stream st).1.1 = 0
        /\ b (on_pollin true r stream st).1.1 = 0).
Proof.
  intros Hlen Hgo Hok. split; [|apply forced_flush_when_full].
  destruct (parent_lines false pre pin (W_EXITCODE 0 0) (replicate 5000 x61)
              buf0 Hlen Hgo Hok) as (r & consumed & Hr & Hstream & Hlog & Hrc & _).
  exists r. split; [done|]. intros Hrest.
  rewrite Hrest, app_nil_r in Hstream. subst consumed.
  rewrite Hlog, Hrc. split; [|done].
  vm_compute. reflexivity.
Qed.

Lemma five_thousand_bytes_when_all_read_witness :
  exists r,
    parent true false
      [PollOk (Some (RdAvail 3000)) None; PollOk (Some (RdAvail 3000)) None;
       PollOk (Some (RdAvail 1000)) (Some (WaitGot (W_EXITCODE 0 0)))]
      (replicate 5000 x61) (replicate 4096 NUL) = ParentReturns r
    /\ p_log r = [ChildLine ForcedFlush (replicate 4095 x61);
                  ChildLine FinalFlush (replicate 905 x61)]
    /\ p_rc r = 0.
Proof.
  destruct (five_thousand_bytes_when_all_read
              [PollOk (Some (RdAvail 3000)) None; PollOk (Some (RdAvail 3000)) None]
              (Some (RdAvail 1000)) (replicate 4096 NUL))
    as [(r & Hr & Hlog) _]; [reflexivity..|].
  exists r. split; [exact Hr|]. apply Hlog.
  vm_compute in Hr. injection Hr as <-. reflexivity.
Defined.

(** C7: the child writes its 5000 bytes ['a'] and exits with code 0 before
    the pump polls.  The one turn of the loop finds input and the hang-up
    together: [read] takes the 4095 bytes that fit, the forced flush logs
    them, [waitpid] finds the child and the loop is over.  The 905 bytes
    left in the terminal are never read and never logged. *)
Lemma C7_failing_run :
  parent true false
    [PollOk (Some (RdAvail 5000)) (Some (WaitGot (W_EXITCODE 0 0)))]
    (replicate 5000 x61) (replicate 4096 NUL)
  = ParentReturns
      (ParentResult 0 None [ChildLine ForcedFlush (replicate 4095 x61)]
         (replicate 905 x61)).
Proof. vm_compute. reflexivity. Qed.

(** C10: the child writes "a", NUL, a [read] fails, the child writes "bc"
    and a newline.  The failed read takes the last byte off the fragment,
    here the NUL, and the line logged is "abc": it is not cut at the NUL. *)
Lemma C10_failing_run :
  parent true false
    [PollOk (Some (RdAvail 2)) None; PollOk (Some RdErr) None;
     PollOk (Some (RdAvail 3)) (Some (WaitGot (W_EXITCODE 0 0)))]
    [x61; NUL; x62; x63; LF] (replicate 4096 NUL)
  = ParentReturns
      (ParentResult 0 None [ChildLine PerLine [x61; x62; x63]] []).
Proof. vm_compute. reflexivity. Qed.

(** * Further properties *)

(** ** Logging switched off *)

(** The scan loop moves the same bytes and the same index whether it logs
    or not, and logs lines only. *)
Lemma scan_logwrap logwrap n : forall i buf a0 out,
  (scan logwrap n i buf a0 out).1 = (scan false n i buf a0 []).1
  /\ (scan false n i buf a0 out).2 = out
  /\ exists lines,
       (scan logwrap n i buf a0 out).2 = out ++ lines
       /\ forallb from_loop lines = true.
Proof.
  induction n as [|n IH]; intros i buf a0 out; cbn [scan].
  - split; [done|]. split; [done|]. exists []. by rewrite app_nil_r.
  - destruct (decide (buf_get buf i = CR)); [apply IH|].
    destruct (decide (buf_get buf i = LF)); [|apply IH].
    set (buf' := buf_set buf i NUL).
    destruct (IH (i + 1) buf' (i + 1)
                (if logwrap then out ++ [ChildLine PerLine (str_at buf' a0)]
                 else out)) as (Hst & _ & lines & Hout & Hlines).
    destruct (IH (i + 1) buf' (i + 1) out) as (_ & Hfalse & _).
    split; [done|]. split; [done|].
    destruct logwrap.
    + exists (ChildLine PerLine (str_at buf' a0) :: lines).
      split; [by rewrite Hout, <- app_assoc|done].
    + by exists lines.
Qed.

(** So does a whole turn. *)
Lemma on_pollin_logwrap logwrap r stream st :
  (on_pollin logwrap r stream st).1.1 = (on_pollin false r stream st).1.1
  /\ (on_pollin logwrap r stream st).2 = (on_pollin false r stream st).2
  /\ (on_pollin false r stream st).1.2 = []
  /\ forallb from_loop (on_pollin logwrap r stream st).1.2 = true.
Proof.
  unfold on_pollin. destruct (do_read r stream st) as [[sz buf1] stream'].
  destruct (scan_logwrap logwrap (Z.to_nat (sz + b st)) 0 buf1 (a st) [])
    as (Hst & Hquiet & lines & Hout & Hlines).
  destruct (scan logwrap (Z.to_nat (sz + b st)) 0 buf1 (a st) [])
    as [[buf2 a2] out].
  destruct (scan false (Z.to_nat (sz + b st)) 0 buf1 (a st) [])
    as [[buf2' a2'] out'].
  cbn [fst snd] in *. injection Hst as -> ->. subst out out'.
  cbn [app].
  destruct ((a2' =? 0) && (Z.max 0 (sz + b st) =? BUFSZ - 1)).
  - cbn [fst snd]. repeat split; try done.
    destruct logwrap; [|done]. rewrite forallb_app, Hlines. done.
  - by destruct (negb (a2' =? Z.max 0 (sz + b st))).
Qed.

Lemma filter_from_loop log :
  forallb from_loop log = true -> List.filter is_error log = [].
Proof.
  induction log as [|r log IH]; [done|]. cbn. intros Hl.
  apply andb_true_iff in Hl as [Hr Hl]. rewrite IH by done.
  by destruct r as [[| |] ?| | | |].
Qed.

Lemma pump_loop_logwrap script : forall stream st log,
  let '(e, st', log', rest) := pump_loop true script stream st log in
  pump_loop false script stream st (List.filter is_error log)
  = (e, st', List.filter is_error log', rest).
Proof.
  induction script as [|p script IH]; intros stream st log; [done|].
  cbn [pump_loop]. destruct p as [|pin phup].
  { by rewrite List.filter_app. }
  assert (Hturn : forall lw,
    (match pin with
     | Some r =>
         let '(st', out, stream') := on_pollin lw r stream st in
         (st', (if lw then log else List.filter is_error log) ++ out, stream')
     | None => (st, if lw then log else List.filter is_error log, stream)
     end) =
    (match pin with
     | Some r => (on_pollin false r stream st).1.1
     | None => st
     end,
     (if lw then log else List.filter is_error log)
       ++ match pin with
          | Some r => (on_pollin lw r stream st).1.2
          | None => []
          end,
     match pin with
     | Some r => (on_pollin false r stream st).2
     | None => stream
     end)).
  { intros lw. destruct pin as [r|]; [|by rewrite app_nil_r].
    destruct (on_pollin_logwrap lw r stream st) as (Hst & Hrest & _ & _).
    destruct (on_pollin lw r stream st) as [[st' out] stream'].
    cbn [fst snd] in *. by subst. }
  rewrite (Hturn true), (Hturn false). clear Hturn.
  set (st1 := match pin with Some r => _ | None => st end).
  set (stream1 := match pin with Some r => _ | None => stream end).
  assert (Hlog : List.filter is_error log
                 ++ match pin with
                    | Some r => (on_pollin false r stream st).1.2
                    | None => []
                    end
               = List.filter is_error
                   (log ++ match pin with
                           | Some r => (on_pollin true r stream st).1.2
                           | None => []
                           end)).
  { rewrite List.filter_app. f_equal. destruct pin as [r|]; [|done].
    destruct (on_pollin_logwrap true r stream st) as (_ & _ & -> & Hloop).
    by rewrite filter_from_loop. }
  rewrite Hlog.
  destruct phup as [[e| |status]|]; try apply IH; try done.
  rewrite !List.filter_app. reflexivity.
Qed.

Lemma summary_no_error status : List.filter is_error (summary status) = [].
Proof.
  unfold summary.
  by repeat match goal with |- context [if ?c then _ else _] => destruct c end.
Qed.

(** With logging off the pump reads the output of the child exactly as
    with logging on: it ends the same way, with the same result, the same
    status stored and the same bytes left unread, and of the records it
    would have logged only the error records are left. *)
Theorem logwrap_off_drains_the_same has_slot script stream buf0 :
  parent false has_slot script stream buf0
  = quiet (parent true has_slot script stream buf0).
Proof.
  unfold parent.
  pose proof (pump_loop_logwrap script stream (Pump buf0 0 0) []) as Hloop.
  destruct (pump_loop true script stream (Pump buf0 0 0) [])
    as [[[e st'] log'] rest].
  cbn [List.filter] in Hloop. rewrite Hloop.
  destruct e as [|rc|status]; cbn [quiet p_rc p_slot p_log p_rest]; try done.
  do 2 f_equal. rewrite !List.filter_app, summary_no_error, app_nil_r.
  by destruct (negb (a st' =? b st')); cbn; rewrite app_nil_r.
Qed.

(** ** How the loop ends *)

Lemma pump_loop_blocked logwrap script : forall stream st log,
  (pump_loop logwrap script stream st log).1.1.1 = LoopBlocked
  <-> forallb goes_on script = true.
Proof.
  induction script as [|p script IH]; intros stream st log; [done|].
  cbn [pump_loop forallb]. destruct p as [|pin phup]; [done|].
  destruct pin as [r|].
  - destruct (on_pollin logwrap r stream st) as [[st' out] stream'].
    destruct phup as [[| |]|]; cbn [goes_on andb fst]; try done; apply IH.
  - destruct phup as [[| |]|]; cbn [goes_on andb fst]; try done; apply IH.
Qed.

(** The pump comes back exactly when, in some turn, [poll] fails or
    [waitpid], called on a hang-up, answers anything but 0: input alone, a
    hang-up alone or a child that has not exited yet never end the loop. *)
Theorem pump_returns_iff logwrap has_slot script stream buf0 :
  (exists r, parent logwrap has_slot script stream buf0 = ParentReturns r)
  <-> forallb goes_on script = false.
Proof.
  pose proof (pump_loop_blocked logwrap script stream (Pump buf0 0 0) [])
    as Hblocked.
  unfold parent.
  destruct (pump_loop logwrap script stream (Pump buf0 0 0) [])
    as [[[e st'] log'] rest].
  cbn [fst] in Hblocked. destruct e as [|rc|status].
  - split; [by intros [r Hr]|]. intros Hgo.
    rewrite (proj1 Hblocked eq_refl) in Hgo. discriminate.
  - split; [|by eexists]. intros _.
    destruct (forallb goes_on script); [|done].
    by destruct Hblocked as [_ Hb]; specialize (Hb eq_refl).
  - split; [|by eexists]. intros _.
    destruct (forallb goes_on script); [|done].
    by destruct Hblocked as [_ Hb]; specialize (Hb eq_refl).
Qed.

Lemma run_turns_from_loop logwrap pre : forall stream st log,
  exists lines,
    (run_turns logwrap pre stream st log).1.2 = log ++ lines
    /\ forallb from_loop lines = true.
Proof.
  induction pre as [|p pre IH]; intros stream st log; cbn [run_turns].
  - exists []. by rewrite app_nil_r.
  - destruct p as [|[r|] phup]; try apply IH.
    destruct (on_pollin_logwrap logwrap r stream st) as (_ & _ & _ & Hout).
    destruct (on_pollin logwrap r stream st) as [[st' out] stream'].
    cbn [fst snd] in Hout.
    destruct (IH stream' st' (log ++ out)) as (lines & Hlog & Hlines).
    exists (out ++ lines). rewrite Hlog, <- app_assoc. split; [done|].
    by rewrite forallb_app, Hout, Hlines.
Qed.

(** When [poll] fails the pump returns -1 at once: it stores no status, it
    logs the failure and nothing else after the lines of the turns before;
    the fragment it holds is not flushed and the rest of the script is not
    looked at. *)
Theorem poll_failure_aborts logwrap has_slot pre rest stream buf0 :
  forallb goes_on pre = true ->
  exists r lines,
    parent logwrap has_slot (pre ++ PollErr :: rest) stream buf0
      = ParentReturns r
    /\ p_rc r = -1 /\ p_slot r = None
    /\ p_log r = lines ++ [ERROR "poll failed"]
    /\ forallb from_loop lines = true
    /\ p_rest r = (run_turns logwrap pre stream (Pump buf0 0 0) []).2.
Proof.
  intros Hgo. unfold parent. rewrite pump_loop_turns by done.
  destruct (run_turns_from_loop logwrap pre stream (Pump buf0 0 0) [])
    as (lines & Hlog & Hlines).
  destruct (run_turns logwrap pre stream (Pump buf0 0 0) [])
    as [[st' log'] stream'].
  cbn [fst snd app] in *. subst log'. cbn [pump_loop].
  eexists; exists lines. split; [reflexivity|]. done.
Qed.

Lemma poll_failure_aborts_witness :
  exists r,
    parent true true
      [PollOk (Some (RdAvail 2)) None; PollErr;
       PollOk None (Some (WaitGot 0))]
      [x61; x62] (replicate 4096 NUL) = ParentReturns r
    /\ p_rc r = -1 /\ p_slot r = None /\ p_log r = [ERROR "poll failed"].
Proof.
  destruct (poll_failure_aborts true true [PollOk (Some (RdAvail 2)) None]
              [PollOk None (Some (WaitGot 0))] [x61; x62]
              (replicate 4096 NUL))
    as (r & lines & Hr & Hrc & Hslot & _); [reflexivity|].
  exists r. split; [exact Hr|]. split; [exact Hrc|]. split; [exact Hslot|].
  vm_compute in Hr. injection Hr as <-. reflexivity.
Defined.

(** When [waitpid] fails the pump returns the error number at once, after
    the input of that turn is dealt with: it stores no status, it logs the
    failure and nothing else after the lines of the loop; the fragment it
    holds is not flushed and no summary is logged. *)
Theorem waitpid_failure_aborts logwrap has_slot pre pin errno rest stream buf0 :
  forallb goes_on pre = true ->
  exists r lines,
    parent logwrap has_slot (pre ++ PollOk pin (Some (WaitErr errno)) :: rest)
      stream buf0 = ParentReturns r
    /\ p_rc r = errno /\ p_slot r = None
    /\ p_log r = lines ++ [ErrorRecord "logwrap" "waitpid failed"]
    /\ forallb from_loop lines = true.
Proof.
  intros Hgo. unfold parent. rewrite pump_loop_turns by done.
  destruct (run_turns_from_loop logwrap pre stream (Pump buf0 0 0) [])
    as (lines & Hlog & Hlines).
  destruct (run_turns logwrap pre stream (Pump buf0 0 0) [])
    as [[st' log'] stream'].
  cbn [fst snd app] in *. subst log'. cbn [pump_loop].
  destruct pin as [r|].
  - destruct (on_pollin_logwrap logwrap r stream' st') as (_ & _ & _ & Hout).
    destruct (on_pollin logwrap r stream' st') as [[st2 out] stream2].
    cbn [fst snd] in Hout.
    eexists; exists (lines ++ out). split; [reflexivity|].
    cbn [p_rc p_slot p_log]. repeat split; try done.
    by rewrite forallb_app, Hlines, Hout.
  - eexists; exists lines. split; [reflexivity|]. done.
Qed.

Lemma waitpid_failure_aborts_witness :
  exists r,
    parent true true
      [PollOk (Some (RdAvail 2)) (Some WaitNone);
       PollOk None (Some (WaitErr ECHILD))]
      [x61; x62] (replicate 4096 NUL) = ParentReturns r
    /\ p_rc r = ECHILD /\ p_slot r = None.
Proof.
  destruct (waitpid_failure_aborts true true
              [PollOk (Some (RdAvail 2)) (Some WaitNone)] None ECHILD []
              [x61; x62] (replicate 4096 NUL))
    as (r & lines & Hr & Hrc & Hslot & _); [reflexivity|].
  exists r. split; [exact Hr|]. split; [exact Hrc|exact Hslot].
Defined.

(** ** What [read] is asked and what a failure of it costs *)

(** At the top of every turn [read] is asked for at least one byte and for
    no more than fit before the last byte of the buffer, which is kept for
    the terminator: what it delivers goes right after the fragment, the
    buffer keeps its 4096 bytes and the fragment its place, and [b] is an
    index of the buffer that the final flush can write its NUL at. *)
Theorem read_stays_in_buffer buf0 st r stream :
  length buf0 = Z.to_nat BUFSZ -> reachable buf0 st ->
  1 <= BUFSZ - 1 - b st <= BUFSZ - 1
  /\ b st < Z.of_nat (length (buffer st))
  /\ exists sz buf1 stream' data,
       do_read r stream st = (sz, buf1, stream')
       /\ sz <= BUFSZ - 1 - b st
       /\ length buf1 = Z.to_nat BUFSZ
       /\ stream = data ++ stream'
       /\ (sz = -1 /\ data = [] /\ buf1 = buffer st
           \/ sz = Z.of_nat (length data)
              /\ take (Z.to_nat (sz + b st)) buf1 = fragment st ++ data).
Proof.
  intros Hlen Hreach.
  destruct (reachable_inv buf0 st Hlen Hreach) as (Ha & Hb & Hlen' & _).
  split; [buf_lia|]. split; [buf_lia|].
  destruct (do_read_spec r stream st Hb Hlen')
    as (sz & buf1 & stream' & Hread & Hsz & Hlen1 & Hr).
  exists sz, buf1, stream'. destruct r as [k|].
  - destruct Hr as (data & Hstream & Hdata & Htake). exists data.
    repeat split; try done; try lia. by right.
  - destruct Hr as (-> & -> & ->). exists [].
    repeat split; try done; try lia. by left.
Qed.

Lemma read_stays_in_buffer_witness :
  let st := (on_pollin true (RdAvail 3) [x61; LF; x62]
               (Pump (replicate 4096 NUL) 0 0)).1.1 in
  1 <= BUFSZ - 1 - b st <= BUFSZ - 1.
Proof.
  intros st.
  refine (proj1 (read_stays_in_buffer (replicate 4096 NUL) st RdErr [] _ _));
    [reflexivity|].
  apply reach_pollin, reach_entry.
Defined.

(** A [read] that fails costs the fragment its last byte: the turn logs
    nothing and reads nothing, and the fragment kept is the one before
    without its last byte (an empty fragment stays empty). *)
Theorem failed_read_drops_last_byte logwrap buf0 st stream :
  length buf0 = Z.to_nat BUFSZ -> reachable buf0 st ->
  let '(st', out, stream') := on_pollin logwrap RdErr stream st in
  out = [] /\ stream' = stream
  /\ b st' = Z.max 0 (b st - 1)
  /\ fragment st' = take (Z.to_nat (b st - 1)) (fragment st).
Proof.
  intros Hlen0 Hreach.
  destruct (reachable_inv buf0 st Hlen0 Hreach) as (Ha & Hb & Hlen & Hfrag).
  pose proof (on_pollin_spec logwrap RdErr stream st Ha Hb Hlen) as Hspec.
  cbn [do_read] in Hspec. cbv zeta in Hspec.
  replace (-1 + b st) with (b st - 1) in Hspec by lia.
  assert (Htodo : take (Z.to_nat (b st - 1)) (buffer st)
                  = take (Z.to_nat (b st - 1)) (fragment st)).
  { unfold fragment. rewrite take_take. f_equal. lia. }
  rewrite Htodo in Hspec.
  set (todo := take (Z.to_nat (b st - 1)) (fragment st)) in *.
  assert (Hno : Forall (fun c => is_eol c = false) todo) by by apply Forall_take.
  pose proof (scan_list_no_eol todo [] [] Hno) as Hscan.
  rewrite app_nil_r in Hscan. cbn [scan_list app] in Hscan. rewrite Hscan in Hspec.
  destruct (on_pollin logwrap RdErr stream st) as [[st' out] rest].
  destruct Hspec as (-> & Ha' & Hlen' & _ & _ & Hcase).
  assert (Hlt : length todo = Z.to_nat (b st - 1)).
  { subst todo. rewrite length_take. unfold fragment. rewrite length_take. buf_lia. }
  rewrite decide_False in Hcase by buf_lia.
  destruct Hcase as (Hb' & -> & Htake).
  split; [by destruct logwrap|]. split; [done|]. split; [lia|].
  unfold fragment at 1. rewrite Hb', Nat2Z.id. exact Htake.
Qed.

Lemma failed_read_drops_last_byte_witness :
  let st := (on_pollin true (RdAvail 2) [x61; x62]
               (Pump (replicate 4096 NUL) 0 0)).1.1 in
  fragment st = [x61; x62]
  /\ fragment (on_pollin true RdErr [] st).1.1 = [x61].
Proof.
  intros st. split; [reflexivity|].
  pose proof (failed_read_drops_last_byte true (replicate 4096 NUL) st []
                eq_refl (reach_pollin _ true (RdAvail 2) [x61; x62] _
                           (reach_entry _))) as Hdrop.
  destruct (on_pollin true RdErr [] st) as [[st' out] stream'].
  destruct Hdrop as (_ & _ & _ & Hfrag). cbn [fst]. rewrite Hfrag.
  reflexivity.
Defined.

(** ** The lines of a run that reaps the child *)

Lemma segments_from_per_line s : forall cur,
  length (List.filter is_per_line (segments_from cur s)) = count_lf s.
Proof.
  unfold count_lf.
  induction s as [|c s IH]; intros cur; cbn [segments_from List.filter].
  - by destruct cur.
  - destruct (decide (c = LF)) as [->|Hlf].
    + cbn. by rewrite IH.
    + rewrite bool_decide_eq_false_2 by done.
      destruct (decide (length (cur ++ [c]) = Z.to_nat (BUFSZ - 1)));
        cbn; apply IH.
Qed.

Lemma filter_per_line_logged segs :
  List.filter is_per_line (map logged segs)
  = map logged (List.filter is_per_line segs).
Proof.
  induction segs as [|[site seg] segs IH]; [done|].
  cbn. rewrite IH. by destruct site.
Qed.

Lemma segments_from_length s : forall cur,
  (length cur < Z.to_nat (BUFSZ - 1))%nat ->
  Forall (fun p => (length p.2 <= Z.to_nat (BUFSZ - 1))%nat)
    (segments_from cur s).
Proof.
  induction s as [|c s IH]; intros cur Hcur; cbn [segments_from].
  - destruct cur; [done|]. constructor; [cbn [snd]; lia|done].
  - assert (Hnil : (length (@nil byte) < Z.to_nat (BUFSZ - 1))%nat)
      by (cbn; buf_lia).
    destruct (decide (c = LF)).
    + constructor; [cbn [snd]; lia|by apply IH].
    + destruct (decide (length (cur ++ [c]) = Z.to_nat (BUFSZ - 1))) as [Hf|Hf].
      * constructor; [cbn [snd]; lia|by apply IH].
      * apply IH. rewrite length_app in *. cbn [length] in *. lia.
Qed.

Lemma cut_clean l : Forall (fun c => c <> NUL /\ c <> CR) (cut l).
Proof.
  induction l as [|c l IH]; [done|]. cbn [cut].
  destruct (decide (c = NUL)); [done|]. destruct (decide (c = CR)); [done|].
  by constructor.
Qed.

Lemma cut_sublist l : cut l `sublist_of` l.
Proof. rewrite <- cut_take. apply sublist_take. Qed.

Lemma logged_sublist segs :
  concat (map snd (map logged segs)) `sublist_of` concat (map raw segs).
Proof.
  induction segs as [|[site seg] segs IH]; [done|].
  cbn [map concat]. apply sublist_app; [|done].
  unfold logged, raw. cbn [fst snd].
  destruct site; try apply cut_sublist.
  apply sublist_inserts_r, cut_sublist.
Qed.

(** Decoding the statuses: the tests of the summary. *)
Lemma forallb_seqZ (f : Z -> bool) lo len n :
  forallb f (seqZ lo len) = true -> lo <= n < lo + len -> f n = true.
Proof.
  intros Hall Hn. rewrite forallb_forall in Hall. apply Hall.
  apply list_elem_of_In, elem_of_seqZ. lia.
Qed.

Lemma summary_exit n :
  0 <= n <= 255 ->
  summary (W_EXITCODE n 0) = if n =? 0 then [] else [ExitSummary n].
Proof.
  intros Hn. unfold summary.
  by rewrite WIFEXITED_exit, WEXITSTATUS_exit.
Qed.

Lemma summary_signaled sig core :
  1 <= sig <= 126 -> summary (W_SIGNALED sig core) = [SignalSummary sig].
Proof.
  intros Hsig. unfold summary.
  rewrite WIFEXITED_signaled, WTERMSIG_signaled by lia.
  replace (WIFSIGNALED (W_SIGNALED sig core)) with true; [done|].
  symmetry.
  pose proof (forallb_seqZ
                (fun s => WIFSIGNALED (W_SIGNALED s true)
                          && WIFSIGNALED (W_SIGNALED s false)) 1 126 sig
                ltac:(by vm_compute) ltac:(lia)) as Hboth.
  apply andb_true_iff in Hboth as [Ht Hf]. by destruct core.
Qed.

Lemma summary_stopped sig :
  0 <= sig <= 255 -> summary (W_STOPCODE sig) = [StopSummary sig].
Proof.
  intros Hsig. unfold summary.
  pose proof (forallb_seqZ
                (fun s => negb (WIFEXITED (W_STOPCODE s))
                          && negb (WIFSIGNALED (W_STOPCODE s))
                          && WIFSTOPPED (W_STOPCODE s)
                          && (WSTOPSIG (W_STOPCODE s) =? s)) 0 256 sig
                ltac:(by vm_compute) ltac:(lia)) as Hall.
  repeat (apply andb_true_iff in Hall as [Hall ?]).
  apply negb_true_iff in Hall. rewrite Hall.
  replace (WIFSIGNALED (W_STOPCODE sig)) with false
    by (symmetry; by apply negb_true_iff).
  replace (WIFSTOPPED (W_STOPCODE sig)) with true by done.
  f_equal. f_equal. by apply Z.eqb_eq.
Qed.

Section ReapedLines.

(** As before: the script goes on turn after turn and reaps the child in
    its last turn, no [read] fails, logging is on. *)
Context (has_slot : bool) (pre : list poll_res) (pin : option read_res)
  (status : Z) (stream buf0 : list byte).

Local Abbreviation script := (pre ++ [PollOk pin (Some (WaitGot status))]).

Hypothesis Hlen : length buf0 = Z.to_nat BUFSZ.
Hypothesis Hgo : forallb goes_on pre = true.
Hypothesis Hok : forallb reads_ok script = true.

(** One line is logged on a newline for each newline read, no more and no
    fewer, wherever the newlines fall in the reads. *)
Theorem one_line_per_newline :
  exists r consumed,
    parent true has_slot script stream buf0 = ParentReturns r
    /\ stream = consumed ++ p_rest r
    /\ length (List.filter is_per_line (child_lines (p_log r)))
       = count_lf consumed.
Proof.
  destruct (parent_lines has_slot pre pin status stream buf0 Hlen Hgo Hok)
    as (r & consumed & Hr & Hstream & Hlog & _).
  exists r, consumed. split; [done|]. split; [done|].
  rewrite (parent_child_lines r consumed status Hlog).
  rewrite filter_per_line_logged, length_map.
  apply segments_from_per_line.
Qed.

(** No line logged for the child is longer than the buffer less one byte,
    and none holds a NUL, a carriage return or a newline. *)
Theorem logged_lines_short_and_clean :
  exists r,
    parent true has_slot script stream buf0 = ParentReturns r
    /\ Forall (fun p => (length p.2 <= Z.to_nat (BUFSZ - 1))%nat
                        /\ Forall (fun c => c <> NUL /\ c <> CR /\ c <> LF) p.2)
         (child_lines (p_log r)).
Proof.
  destruct (parent_lines has_slot pre pin status stream buf0 Hlen Hgo Hok)
    as (r & consumed & Hr & Hstream & Hlog & _).
  exists r. split; [done|].
  rewrite (parent_child_lines r consumed status Hlog). unfold segments.
  pose proof (segments_from_length consumed [] ltac:(cbn; buf_lia)) as Hshort.
  pose proof (segments_from_no_lf consumed [] (Forall_nil_2 _)) as Hlf.
  induction (segments_from [] consumed) as [|[site seg] segs IH]; [done|].
  apply Forall_cons in Hshort as [Hs Hshort], Hlf as [Hl Hlf].
  cbn [map]. constructor; [|by apply IH].
  unfold logged. cbn [fst snd] in *. split.
  - pose proof (sublist_length _ _ (cut_sublist seg)). lia.
  - pose proof (cut_clean seg) as Hclean.
    assert (Hsub : Forall (fun c => c <> LF) (cut seg)).
    { rewrite <- cut_take. by apply Forall_take. }
    clear -Hclean Hsub.
    induction Hclean as [|c l [Hnul Hcr] _ IHl]; [done|].
    apply Forall_cons in Hsub as [Hc Hsub]. constructor; [done|by apply IHl].
Qed.

(** The bytes logged for the child, line after line, are bytes it wrote,
    in the order it wrote them: the log never holds a byte that was not
    read, never one twice, never two in the wrong order. *)
Theorem logged_bytes_are_read_bytes :
  exists r consumed,
    parent true has_slot script stream buf0 = ParentReturns r
    /\ stream = consumed ++ p_rest r
    /\ concat (map snd (child_lines (p_log r))) `sublist_of` consumed.
Proof.
  destruct (parent_lines has_slot pre pin status stream buf0 Hlen Hgo Hok)
    as (r & consumed & Hr & Hstream & Hlog & _).
  exists r, consumed. split; [done|]. split; [done|].
  rewrite (parent_child_lines r consumed status Hlog).
  rewrite <- (segments_from_raw consumed []) at 2. apply logged_sublist.
Qed.

(** After the lines of the child, final flush included, comes the summary
    and nothing else: none for exit code 0, the exit code when it is not 0,
    the signal for a child killed or stopped by one. *)
Theorem summary_closes_the_log :
  exists r consumed,
    parent true has_slot script stream buf0 = ParentReturns r
    /\ stream = consumed ++ p_rest r
    /\ (forall n, 0 <= n <= 255 -> status = W_EXITCODE n 0 ->
          p_log r = map line_record (segments consumed)
                    ++ (if n =? 0 then [] else [ExitSummary n]))
    /\ (forall sig core, 1 <= sig <= 126 -> status = W_SIGNALED sig core ->
          p_log r = map line_record (segments consumed) ++ [SignalSummary sig])
    /\ (forall sig, 0 <= sig <= 255 -> status = W_STOPCODE sig ->
          p_log r = map line_record (segments consumed) ++ [StopSummary sig]).
Proof.
  destruct (parent_lines has_slot pre pin status stream buf0 Hlen Hgo Hok)
    as (r & consumed & Hr & Hstream & Hlog & _).
  exists r, consumed. split; [done|]. split; [done|]. rewrite Hlog.
  split; [|split].
  - intros n Hn ->. by rewrite summary_exit.
  - intros sig core Hsig ->. by rewrite summary_signaled.
  - intros sig Hsig ->. by rewrite summary_stopped.
Qed.

End ReapedLines.

Lemma one_line_per_newline_witness :
  exists r consumed,
    parent true false
      [PollOk (Some (RdAvail 3)) None; PollOk (Some (RdAvail 9)) (Some (WaitGot 0))]
      [x68; x69; CR; LF; LF; x79; x6f; LF; x75] (replicate 4096 NUL)
      = ParentReturns r
    /\ [x68; x69; CR; LF; LF; x79; x6f; LF; x75] = consumed ++ p_rest r
    /\ length (List.filter is_per_line (child_lines (p_log r)))
       = count_lf consumed.
Proof.
  apply (one_line_per_newline false [PollOk (Some (RdAvail 3)) None]
           (Some (RdAvail 9)) 0); reflexivity.
Defined.

Lemma logged_lines_short_and_clean_witness :
  exists r,
    parent true false [PollOk (Some (RdAvail 5000)) (Some (WaitGot 0))]
      (replicate 4200 x61 ++ [CR; LF; NUL; x62]) (replicate 4096 NUL)
      = ParentReturns r
    /\ Forall (fun p => (length p.2 <= Z.to_nat (BUFSZ - 1))%nat
                        /\ Forall (fun c => c <> NUL /\ c <> CR /\ c <> LF) p.2)
         (child_lines (p_log r)).
Proof.
  apply (logged_lines_short_and_clean false [] (Some (RdAvail 5000)) 0);
    reflexivity.
Defined.

Lemma logged_bytes_are_read_bytes_witness :
  exists r consumed,
    parent true false
      [PollOk (Some (RdAvail 2)) None; PollOk (Some (RdAvail 9)) (Some (WaitGot 0))]
      [x61; CR; x62; LF; NUL; x63] (replicate 4096 NUL) = ParentReturns r
    /\ [x61; CR; x62; LF; NUL; x63] = consumed ++ p_rest r
    /\ concat (map snd (child_lines (p_log r))) `sublist_of` consumed.
Proof.
  apply (logged_bytes_are_read_bytes false [PollOk (Some (RdAvail 2)) None]
           (Some (RdAvail 9)) 0); reflexivity.
Defined.

Lemma summary_closes_the_log_witness :
  exists r,
    parent true false
      [PollOk (Some (RdAvail 9)) (Some (WaitGot (W_SIGNALED 9 false)))]
      [x61; LF; x62] (replicate 4096 NUL) = ParentReturns r
    /\ p_log r = [ChildLine PerLine [x61]; ChildLine FinalFlush [x62];
                  SignalSummary 9].
Proof.
  destruct (summary_closes_the_log false [] (Some (RdAvail 9))
              (W_SIGNALED 9 false) [x61; LF; x62] (replicate 4096 NUL))
    as (r & consumed & Hr & Hstream & _ & Hsig & _); [reflexivity..|].
  exists r. split; [exact Hr|].
  rewrite (Hsig 9 false ltac:(lia) eq_refl).
  vm_compute in Hr. injection Hr as <-. cbn [p_rest] in Hstream.
  rewrite app_nil_r in Hstream. subst consumed. reflexivity.
Defined.

(** How the output of the child is spread over the reads does not matter:
    two runs over the same output that end on the same status return the
    same result, and if they leave the same bytes unread they log the same
    records. *)
Theorem read_boundaries_do_not_matter has_slot status stream
    pre1 pin1 buf1 pre2 pin2 buf2 :
  length buf1 = Z.to_nat BUFSZ -> length buf2 = Z.to_nat BUFSZ ->
  forallb goes_on pre1 = true -> forallb goes_on pre2 = true ->
  forallb reads_ok (pre1 ++ [PollOk pin1 (Some (WaitGot status))]) = true ->
  forallb reads_ok (pre2 ++ [PollOk pin2 (Some (WaitGot status))]) = true ->
  exists r1 r2,
    parent true has_slot (pre1 ++ [PollOk pin1 (Some (WaitGot status))])
      stream buf1 = ParentReturns r1
    /\ parent true has_slot (pre2 ++ [PollOk pin2 (Some (WaitGot status))])
         stream buf2 = ParentReturns r2
    /\ p_rc r1 = p_rc r2 /\ p_slot r1 = p_slot r2
    /\ (p_rest r1 = p_rest r2 -> p_log r1 = p_log r2).
Proof.
  intros Hlen1 Hlen2 Hgo1 Hgo2 Hok1 Hok2.
  destruct (parent_lines has_slot pre1 pin1 status stream buf1 Hlen1 Hgo1 Hok1)
    as (r1 & consumed1 & Hr1 & Hstream1 & Hlog1 & Hrc1 & Hslot1).
  destruct (parent_lines has_slot pre2 pin2 status stream buf2 Hlen2 Hgo2 Hok2)
    as (r2 & consumed2 & Hr2 & Hstream2 & Hlog2 & Hrc2 & Hslot2).
  exists r1, r2. split; [done|]. split; [done|].
  split; [congruence|]. split; [congruence|].
  intros Hrest. rewrite Hlog1, Hlog2.
  assert (consumed1 = consumed2) as ->; [|done].
  apply (app_inv_tail (p_rest r2)). rewrite <- Hrest at 1. congruence.
Qed.

Lemma read_boundaries_do_not_matter_witness :
  exists r1 r2,
    parent true false
      [PollOk (Some (RdAvail 1)) None; PollOk (Some (RdAvail 1)) None;
       PollOk (Some (RdAvail 9)) (Some (WaitGot 0))]
      [x61; LF; x62; LF] (replicate 4096 NUL) = ParentReturns r1
    /\ parent true false [PollOk (Some (RdAvail 9)) (Some (WaitGot 0))]
         [x61; LF; x62; LF] (replicate 4096 x61) = ParentReturns r2
    /\ p_log r1 = p_log r2.
Proof.
  destruct (read_boundaries_do_not_matter false 0 [x61; LF; x62; LF]
              [PollOk (Some (RdAvail 1)) None; PollOk (Some (RdAvail 1)) None]
              (Some (RdAvail 9)) (replicate 4096 NUL)
              [] (Some (RdAvail 9)) (replicate 4096 x61))
    as (r1 & r2 & Hr1 & Hr2 & _ & _ & Hlog); [reflexivity..|].
  exists r1, r2. split; [exact Hr1|]. split; [exact Hr2|].
  apply Hlog. vm_compute in Hr1, Hr2.
  injection Hr1 as <-. injection Hr2 as <-. reflexivity.
Defined.

(** ** Descriptors and signals over a whole launch *)

(** Whatever the set-up calls, fork and the pump answer, when the
    operation comes back to its caller nothing of the launch is left: no
    descriptor open, the lock free, the signal mask of the caller back and
    the dispositions of SIGINT and SIGQUIT as they were. *)
Theorem returning_launch_leaves_nothing env has_slot ign logwrap rc slot :
  (android_fork_execvp env has_slot ign logwrap).2 = Returns rc slot ->
  open_fds (android_fork_execvp env has_slot ign logwrap).1 = []
  /\ lock_held (android_fork_execvp env has_slot ign logwrap).1 = false
  /\ mask_blocked (android_fork_execvp env has_slot ign logwrap).1 = false
  /\ int_quit_ignored (android_fork_execvp env has_slot ign logwrap).1 = false.
Proof.
  unfold android_fork_execvp.
  destruct (negb (lock_rc env =? 0)); [done|].
  destruct (ptmx_fd env <? 0); [done|].
  destruct (negb (grantpt_rc env =? 0) || negb (unlockpt_rc env =? 0)
            || negb (ptsname_ok env)).
  { intros _. unfold open_fds. cbn. by rewrite Z.eqb_refl. }
  destruct (child_fd env <? 0).
  { intros _. unfold open_fds. cbn. by rewrite Z.eqb_refl. }
  destruct (fork_pid env <? 0).
  { intros _. unfold open_fds. cbn. rewrite Z.eqb_refl. cbn.
    by rewrite Z.eqb_refl. }
  destruct (fork_pid env =? 0).
  { unfold child. by destruct (exec_ok env). }
  destruct (parent logwrap has_slot (pump_script env) (child_output env)
              (stack_buffer env)) as [log|r]; [done|].
  intros _. unfold open_fds, lock_held, mask_blocked, int_quit_ignored.
  destruct ign; cbn; rewrite Z.eqb_refl; cbn; by rewrite Z.eqb_refl.
Qed.

Lemma returning_launch_leaves_nothing_witness :
  let tr := (android_fork_execvp
               (env_exit [PollOk None (Some (WaitErr ECHILD))] [])
               true true true).1 in
  open_fds tr = [] /\ lock_held tr = false
  /\ mask_blocked tr = false /\ int_quit_ignored tr = false.
Proof.
  apply (returning_launch_leaves_nothing
           (env_exit [PollOk None (Some (WaitErr ECHILD))] [])
           true true true ECHILD None).
  reflexivity.
Defined.

(** On every path, in the parent and in the child, a descriptor is closed
    or duplicated only while it is open: none is closed twice, none is used
    after it is closed, none is closed that was never opened. *)
Theorem descriptors_used_while_open env has_slot ign logwrap :
  fds_used_ok [] (android_fork_execvp env has_slot ign logwrap).1 = true.
Proof.
  unfold android_fork_execvp.
  destruct (negb (lock_rc env =? 0)); [done|].
  destruct (ptmx_fd env <? 0); [done|].
  destruct (negb (grantpt_rc env =? 0) || negb (unlockpt_rc env =? 0)
            || negb (ptsname_ok env)).
  { cbn. by rewrite Z.eqb_refl. }
  destruct (child_fd env <? 0).
  { cbn. by rewrite Z.eqb_refl. }
  destruct (fork_pid env <? 0).
  { cbn. rewrite !Z.eqb_refl. cbn. by rewrite Z.eqb_refl. }
  destruct (fork_pid env =? 0).
  { unfold child.
    destruct (exec_ok env); cbn; rewrite !Z.eqb_refl, ?orb_true_r;
      cbn; destruct (child_fd env =? ptmx_fd env) eqn:Hsame;
      cbn; rewrite ?Z.eqb_refl, ?Hsame; cbn;
      rewrite ?Z.eqb_refl, ?Hsame; done. }
  destruct (parent logwrap has_slot (pump_script env) (child_output env)
              (stack_buffer env)) as [log|r];
    destruct ign; cbn; rewrite !Z.eqb_refl; cbn; by rewrite ?Z.eqb_refl.
Qed.

(** While the pump runs, the parent holds the master of the terminal and
    nothing else of the launch (its copy of the slave is closed), SIGINT
    and SIGQUIT are blocked in the calling thread, and they are ignored by
    the process exactly when the caller asked for it. *)
Theorem pump_runs_with_master_only env has_slot ign logwrap :
  setup_fails env = false -> 0 < fork_pid env ->
  exists pre o post,
    (android_fork_execvp env has_slot ign logwrap).1 = pre ++ EvParent o :: post
    /\ o = parent logwrap has_slot (pump_script env) (child_output env)
             (stack_buffer env)
    /\ open_fds pre = [ptmx_fd env]
    /\ mask_blocked pre = true
    /\ int_quit_ignored pre = ign.
Proof.
  intros Hok Hpid. rewrite launch_parent by done.
  set (o := parent _ _ _ _ _).
  exists ([EvLock; EvOpen (ptmx_fd env); EvOpen (child_fd env); EvSigBlock;
           EvFork; EvClose (child_fd env)] ++ when ign [EvSigIgnore]), o.
  assert (Hpre :
    open_fds ([EvLock; EvOpen (ptmx_fd env); EvOpen (child_fd env); EvSigBlock;
               EvFork; EvClose (child_fd env)] ++ when ign [EvSigIgnore])
    = [ptmx_fd env]
    /\ mask_blocked ([EvLock; EvOpen (ptmx_fd env); EvOpen (child_fd env);
                      EvSigBlock; EvFork; EvClose (child_fd env)]
                     ++ when ign [EvSigIgnore]) = true
    /\ int_quit_ignored ([EvLock; EvOpen (ptmx_fd env); EvOpen (child_fd env);
                          EvSigBlock; EvFork; EvClose (child_fd env)]
                         ++ when ign [EvSigIgnore]) = ign).
  { unfold open_fds, mask_blocked, int_quit_ignored.
    destruct ign; cbn; by rewrite Z.eqb_refl. }
  destruct o as [log|r] eqn:Ho.
  - exists []. cbn [fst]. rewrite <- app_assoc. by split.
  - eexists. cbn [fst]. rewrite <- !app_assoc. by split.
Qed.

Lemma pump_runs_with_master_only_witness :
  exists pre o post,
    (android_fork_execvp (env_exit [PollOk None (Some (WaitGot 0))] [])
       false true true).1 = pre ++ EvParent o :: post
    /\ open_fds pre = [3] /\ mask_blocked pre = true
    /\ int_quit_ignored pre = true.
Proof.
  destruct (pump_runs_with_master_only
              (env_exit [PollOk None (Some (WaitGot 0))] []) false true true)
    as (pre & o & post & Htr & _ & Hfds & Hmask & Hign); [reflexivity..|].
  exists pre, o, post. split; [exact Htr|]. split; [exact Hfds|].
  split; [exact Hmask|exact Hign].
Defined.

(** The child never comes back to the caller of the operation.  When it
    reaches [execvp] it has released the lock, put the signal mask back,
    made the slave of the terminal its descriptors 1 and 2 and closed both
    descriptors of the terminal; it then runs the program, or logs the
    failure and exits with -1. *)
Theorem child_is_redirected_then_replaced env has_slot ign logwrap :
  setup_fails env = false -> fork_pid env = 0 ->
  exists pre post,
    (android_fork_execvp env has_slot ign logwrap).1 = pre ++ EvExec :: post
    /\ lock_held pre = false /\ mask_blocked pre = false
    /\ int_quit_ignored pre = false /\ open_fds pre = []
    /\ (exists l1 l2 l3,
          pre = l1 ++ EvDup2 (child_fd env) 1 :: l2
                ++ EvDup2 (child_fd env) 2 :: l3
          /\ is_open (child_fd env) (open_fds l1) = true
          /\ is_open (child_fd env) (open_fds (l1 ++ EvDup2 (child_fd env) 1 :: l2))
             = true)
    /\ (if exec_ok env
        then post = []
             /\ (android_fork_execvp env has_slot ign logwrap).2 = ChildReplaced
        else post = [EvError "executing failed"]
             /\ (android_fork_execvp env has_slot ign logwrap).2
                = ChildExits (-1)).
Proof.
  intros Hok Hpid. rewrite launch_child by done. cbv zeta.
  exists [EvLock; EvOpen (ptmx_fd env); EvOpen (child_fd env); EvSigBlock;
          EvFork; EvUnlock; EvSigSetmask; EvClose (ptmx_fd env);
          EvDup2 (child_fd env) 1; EvDup2 (child_fd env) 2;
          EvClose (child_fd env)].
  exists (if exec_ok env then [] else [EvError "executing failed"]).
  split; [by destruct (exec_ok env)|].
  split; [done|]. split; [done|]. split; [done|].
  assert (Hfds : open_fds
            [EvLock; EvOpen (ptmx_fd env); EvOpen (child_fd env); EvSigBlock;
             EvFork; EvUnlock; EvSigSetmask; EvClose (ptmx_fd env)]
          = if child_fd env =? ptmx_fd env then [ptmx_fd env]
            else [child_fd env]).
  { unfold open_fds. cbn. by rewrite Z.eqb_refl. }
  split.
  { unfold open_fds in *. cbn in *. rewrite Z.eqb_refl in *.
    destruct (child_fd env =? ptmx_fd env) eqn:Hsame; cbn.
    - apply Z.eqb_eq in Hsame. rewrite Hsame. by rewrite Z.eqb_refl.
    - by rewrite Z.eqb_refl. }
  split.
  { exists [EvLock; EvOpen (ptmx_fd env); EvOpen (child_fd env); EvSigBlock;
            EvFork; EvUnlock; EvSigSetmask; EvClose (ptmx_fd env)], [],
      [EvClose (child_fd env)].
    split; [done|].
    assert (Hdup : forall l x y, open_fds (l ++ [EvDup2 x y]) = open_fds l).
    { intros l x y. unfold open_fds. by rewrite foldl_app. }
    rewrite Hdup, Hfds.
    destruct (child_fd env =? ptmx_fd env) eqn:Hsame; unfold is_open; cbn;
      by rewrite ?Hsame, ?Z.eqb_refl. }
  by destruct (exec_ok env).
Qed.

Lemma child_is_redirected_then_replaced_witness :
  exists pre post,
    (android_fork_execvp
       (LaunchEnv 0 3 0 0 true 4 0 false [] [] []) false true true).1
      = pre ++ EvExec :: post
    /\ open_fds pre = []
    /\ (android_fork_execvp
          (LaunchEnv 0 3 0 0 true 4 0 false [] [] []) false true true).2
       = ChildExits (-1).
Proof.
  destruct (child_is_redirected_then_replaced
              (LaunchEnv 0 3 0 0 true 4 0 false [] [] []) false true true)
    as (pre & post & Htr & _ & _ & _ & Hfds & _ & _ & Hout); [reflexivity..|].
  exists pre, post. split; [exact Htr|]. split; [exact Hfds|exact Hout].
Defined.

(** ** Pieces and lines that hold a carriage return or a NUL *)












